(** * terok-nor samples: light switch, Mandelbrot iteration, typed buffers

    A shallow embedding of [sample/light.c], [sample/mandelbrot.c] and
    [sample/memory.c], then of [sample/hello.c], followed by the properties
    of these programs.

    Conventions.
    - The target is wasm32: [unsigned] and [int] are 32 bits wide, [short]
      16, [long long] 64, and plain [char] is a signed 8-bit type.  Integer
      values are carried as [Z] and every narrowing is written out.
    - [double] and [float] are IEEE 754 binary64 and binary32 with
      round-to-nearest-even, carried as [spec_float] and computed with the
      operations of [SpecFloat] at precision 53/24 and exponent bound
      1024/128.  Every C expression is evaluated in its source order, one
      rounding per operation.
    - Global variables become fields of an explicit state that each function
      receives and returns. *)

From Stdlib Require Import ZArith Lia Bool SpecFloat Ascii String.
From stdpp Require Import base option list.

Local Open Scope Z_scope.

(** ** Machine integers *)

Module Int.

(** Reduction of a mathematical integer into an unsigned [bits]-wide word. *)
Definition wrap_unsigned (bits z : Z) : Z := z mod 2 ^ bits.

(** Reduction into a two's complement [bits]-wide word. *)
Definition wrap_signed (bits z : Z) : Z :=
  (z + 2 ^ (bits - 1)) mod 2 ^ bits - 2 ^ (bits - 1).

Definition to_unsigned : Z -> Z := wrap_unsigned 32.
Definition to_char : Z -> Z := wrap_signed 8.
Definition to_short : Z -> Z := wrap_signed 16.
Definition to_int : Z -> Z := wrap_signed 32.
Definition to_long_long : Z -> Z := wrap_signed 64.

(** The values an [unsigned] parameter can hold. *)
Definition unsigned_range (z : Z) : Prop := 0 <= z < 2 ^ 32.

(** The bit pattern of an 8-bit value, read as a number in [0, 256). *)
Definition bits8 (c : Z) : Z := c mod 256.

End Int.

(** ** Floating point *)

Module FP.

Definition double : Type := spec_float.
Definition float : Type := spec_float.

Definition is_nan (x : spec_float) : bool :=
  match x with S754_nan => true | _ => false end.

Module D.
Definition prec : Z := 53.
Definition emax : Z := 1024.
Definition add : double -> double -> double := SFadd prec emax.
Definition sub : double -> double -> double := SFsub prec emax.
Definition mul : double -> double -> double := SFmul prec emax.
Definition ltb : double -> double -> bool := SFltb.
(** Conversion of an integer to [double], as in [(double)i]. *)
Definition of_int (z : Z) : double := binary_normalize prec emax z 0 false.
End D.

Module F.
Definition prec : Z := 24.
Definition emax : Z := 128.
Definition add : float -> float -> float := SFadd prec emax.
(** Conversion of an integer to [float], as in [(float)i]. *)
Definition of_int (z : Z) : float := binary_normalize prec emax z 0 false.
End F.

(** [exactly x z]: the floating-point datum [x] denotes the integer [z],
    that is, [z = (-1)^s * m * 2^e] holds without any rounding. *)
Definition exactly (x : spec_float) (z : Z) : Prop :=
  match x with
  | S754_zero _ => z = 0
  | S754_finite s m e =>
      let v := if s then Z.neg m else Z.pos m in
      if 0 <=? e then z = v * 2 ^ e else v = z * 2 ^ (- e)
  | _ => False
  end.

End FP.

(** ** light.c *)

Module Light.

(** The file's only global, [int lit]. *)
Record state : Type := { lit : Z }.

(** [int lit = 0;] *)
Definition init : state := {| lit := 0 |}.

Definition turn_on (s : state) : state := {| lit := 1 |}.

Definition turn_off (s : state) : state := {| lit := 0 |}.

(** [is_lit] returns a value and leaves the state as it found it. *)
Definition is_lit (s : state) : Z * state := (lit s, s).

(** The exported entry points, as a host may invoke them. *)
Inductive call : Type := TurnOn | TurnOff | IsLit.

(** One call: the value handed back to the host (if any) and the new state. *)
Definition exec (c : call) (s : state) : option Z * state :=
  match c with
  | TurnOn => (None, turn_on s)
  | TurnOff => (None, turn_off s)
  | IsLit => let '(r, s') := is_lit s in (Some r, s')
  end.

(** A sequence of calls, oldest first. *)
Definition run (cs : list call) (s : state) : state :=
  fold_left (fun s c => snd (exec c s)) cs s.

Definition changes_state (c : call) : bool :=
  match c with IsLit => false | _ => true end.

(** The most recent call of [cs] that writes [lit], if there is one. *)
Definition last_change (cs : list call) : option call :=
  last (List.filter changes_state cs).

End Light.

(** ** mandelbrot.c *)

Module Mandelbrot.
Import FP.

(** The locals of [iterate_mandelbrot] that live across loop iterations. *)
Record locals : Type := { zx : double; zy : double; i : Z }.

(** The constants of the function: the literals [4.0] and [0.0], and the
    [int] literal [2] converted to [double] for the product. *)
Definition four : double := D.of_int 4.
Definition two : double := D.of_int 2.
Definition zero : double := S754_zero false.

(** [double zx = 0.0, zy = 0.0; unsigned i = 0;] *)
Definition entry : locals := {| zx := zero; zy := zero; i := 0 |}.

(** [(zx * zx + zy * zy) < 4.0] *)
Definition inside (l : locals) : bool :=
  D.ltb (D.add (D.mul (zx l) (zx l)) (D.mul (zy l) (zy l))) four.

(** [i < maxIters && (zx * zx + zy * zy) < 4.0] *)
Definition loop_test (maxIters : Z) (l : locals) : bool :=
  (i l <? maxIters) && inside l.

(** The loop body followed by [i++]. *)
Definition loop_body (cx cy : double) (l : locals) : locals :=
  let new_zx := D.add (D.sub (D.mul (zx l) (zx l)) (D.mul (zy l) (zy l))) cx in
  let zy' := D.add (D.mul (D.mul two (zx l)) (zy l)) cy in
  {| zx := new_zx; zy := zy'; i := Int.to_unsigned (i l + 1) |}.

(** The [for] loop.  [fuel] bounds the number of iterations the model may
    take; [None] means the bound was hit with the loop test still true. *)
Fixpoint loop (fuel : nat) (cx cy : double) (maxIters : Z) (l : locals)
  : option Z :=
  if loop_test maxIters l then
    match fuel with
    | O => None
    | S fuel' => loop fuel' cx cy maxIters (loop_body cx cy l)
    end
  else Some (i l).

(** The exported function.  [maxIters] iterations always suffice, see
    [loop_enough_fuel]. *)
Definition iterate_mandelbrot (cx cy : double) (maxIters : Z) : option Z :=
  loop (Z.to_nat maxIters) cx cy maxIters entry.

(** The locals after [n] passes through the loop body, when no test stops
    the loop earlier. *)
Fixpoint orbit (cx cy : double) (n : nat) : locals :=
  match n with
  | O => entry
  | S n' => loop_body cx cy (orbit cx cy n')
  end.

End Mandelbrot.

(** ** memory.c *)

Module Memory.
Import FP.

(** [#define ITEMS (1024 * 1024)] *)
Definition ITEMS : Z := 1024 * 1024.

(** The six static arrays.  An element of an integer array is its value in
    the array's signed type. *)
Record memory : Type := {
  buffer_i8 : list Z;
  buffer_i16 : list Z;
  buffer_i32 : list Z;
  buffer_i64 : list Z;
  buffer_f32 : list float;
  buffer_f64 : list double
}.

(** Static storage: every array has [ITEMS] elements, for the whole run. *)
Record well_formed (m : memory) : Prop := {
  wf_i8 : length (buffer_i8 m) = Z.to_nat ITEMS;
  wf_i16 : length (buffer_i16 m) = Z.to_nat ITEMS;
  wf_i32 : length (buffer_i32 m) = Z.to_nat ITEMS;
  wf_i64 : length (buffer_i64 m) = Z.to_nat ITEMS;
  wf_f32 : length (buffer_f32 m) = Z.to_nat ITEMS;
  wf_f64 : length (buffer_f64 m) = Z.to_nat ITEMS
}.

(** Static storage starts out zeroed. *)
Definition zeroed : memory := {|
  buffer_i8 := replicate (Z.to_nat ITEMS) 0;
  buffer_i16 := replicate (Z.to_nat ITEMS) 0;
  buffer_i32 := replicate (Z.to_nat ITEMS) 0;
  buffer_i64 := replicate (Z.to_nat ITEMS) 0;
  buffer_f32 := replicate (Z.to_nat ITEMS) (S754_zero false);
  buffer_f64 := replicate (Z.to_nat ITEMS) (S754_zero false)
|}.

(** Writes to one array: [a[i] = f(a[i])] is [alter f i a]. *)
Definition with_i8 (f : list Z -> list Z) (m : memory) : memory :=
  {| buffer_i8 := f (buffer_i8 m); buffer_i16 := buffer_i16 m;
     buffer_i32 := buffer_i32 m; buffer_i64 := buffer_i64 m;
     buffer_f32 := buffer_f32 m; buffer_f64 := buffer_f64 m |}.

Definition with_i16 (f : list Z -> list Z) (m : memory) : memory :=
  {| buffer_i8 := buffer_i8 m; buffer_i16 := f (buffer_i16 m);
     buffer_i32 := buffer_i32 m; buffer_i64 := buffer_i64 m;
     buffer_f32 := buffer_f32 m; buffer_f64 := buffer_f64 m |}.

Definition with_i32 (f : list Z -> list Z) (m : memory) : memory :=
  {| buffer_i8 := buffer_i8 m; buffer_i16 := buffer_i16 m;
     buffer_i32 := f (buffer_i32 m); buffer_i64 := buffer_i64 m;
     buffer_f32 := buffer_f32 m; buffer_f64 := buffer_f64 m |}.

Definition with_i64 (f : list Z -> list Z) (m : memory) : memory :=
  {| buffer_i8 := buffer_i8 m; buffer_i16 := buffer_i16 m;
     buffer_i32 := buffer_i32 m; buffer_i64 := f (buffer_i64 m);
     buffer_f32 := buffer_f32 m; buffer_f64 := buffer_f64 m |}.

Definition with_f32 (f : list float -> list float) (m : memory) : memory :=
  {| buffer_i8 := buffer_i8 m; buffer_i16 := buffer_i16 m;
     buffer_i32 := buffer_i32 m; buffer_i64 := buffer_i64 m;
     buffer_f32 := f (buffer_f32 m); buffer_f64 := buffer_f64 m |}.

Definition with_f64 (f : list double -> list double) (m : memory) : memory :=
  {| buffer_i8 := buffer_i8 m; buffer_i16 := buffer_i16 m;
     buffer_i32 := buffer_i32 m; buffer_i64 := buffer_i64 m;
     buffer_f32 := buffer_f32 m; buffer_f64 := f (buffer_f64 m) |}.

(** [for (int i = 0; i < bound; i++) body]: the body runs once for each of
    [0, 1, ..., bound - 1], in this order, on the state the previous pass
    left.  The bound is a constant and the body does not assign [i]. *)
Definition for_lt {S : Type} (bound : Z) (body : Z -> S -> S) (s : S) : S :=
  foldl (fun s i => body i s) s (seqZ 0 bound).

(** The element updates [buffer[i] += i], one per element type.  For the
    two narrow types the sum is formed in [int] and narrowed on assignment;
    for the float types [i] is converted and the sum rounded in that type. *)
Definition add_i8 (i x : Z) : Z := Int.to_char (Int.to_int (x + i)).
Definition add_i16 (i x : Z) : Z := Int.to_short (Int.to_int (x + i)).
Definition add_i32 (i x : Z) : Z := Int.to_int (x + i).
Definition add_i64 (i x : Z) : Z := Int.to_long_long (x + i).
Definition add_f32 (i : Z) (x : float) : float := F.add x (F.of_int i).
Definition add_f64 (i : Z) (x : double) : double := D.add x (D.of_int i).

Definition process_i8 (m : memory) : memory :=
  for_lt ITEMS (fun i => with_i8 (alter (add_i8 i) (Z.to_nat i))) m.

Definition process_i16 (m : memory) : memory :=
  for_lt ITEMS (fun i => with_i16 (alter (add_i16 i) (Z.to_nat i))) m.

Definition process_i32 (m : memory) : memory :=
  for_lt ITEMS (fun i => with_i32 (alter (add_i32 i) (Z.to_nat i))) m.

Definition process_i64 (m : memory) : memory :=
  for_lt ITEMS (fun i => with_i64 (alter (add_i64 i) (Z.to_nat i))) m.

Definition process_f32 (m : memory) : memory :=
  for_lt ITEMS (fun i => with_f32 (alter (add_f32 i) (Z.to_nat i))) m.

Definition process_f64 (m : memory) : memory :=
  for_lt ITEMS (fun i => with_f64 (alter (add_f64 i) (Z.to_nat i))) m.

Definition process_all (m : memory) : memory :=
  let m := process_i8 m in
  let m := process_i16 m in
  let m := process_i32 m in
  let m := process_i64 m in
  let m := process_f32 m in
  process_f64 m.

End Memory.

(** ** hello.c *)

Module Hello.

(** The host: its state, and the imported [int my_putc(int fd, int ch)],
    which answers an [int] and may change the host's state.  The host does
    not write to the bytes the program reads. *)
Section Host.
Variable H : Type.
Variable my_putc : Z -> Z -> H -> Z * H.

(** [while ( *str ) { my_putc(0, *str); str++; }].  [str] is the memory from
    the pointer on, one [char] per element; the loop reads one element per
    pass, so it ends with the list.  [None]: the loop ran off the modelled
    memory without meeting a NUL. *)
Fixpoint my_puts_loop (str : list Z) (h : H) : option H :=
  match str with
  | [] => None
  | c :: str' =>
      if c =? 0 then Some h
      else my_puts_loop str' (snd (my_putc 0 c h))
  end.

(** [my_puts]: the loop, then [my_putc(0, '\n'); return 0;]. *)
Definition my_puts (str : list Z) (h : H) : option (Z * H) :=
  match my_puts_loop str h with
  | Some h' => Some (0, snd (my_putc 0 10 h'))
  | None => None
  end.

(** A string literal in memory: its characters, each the [char] that its
    byte is (bytes from 128 on are negative), and the closing NUL. *)
Definition literal (s : string) : list Z :=
  List.map (fun a => Int.to_char (Z.of_N (N_of_ascii a)))
           (list_ascii_of_string s) ++ [0].

(** [void hello() { my_puts("Hello, world"); }] *)
Definition hello (h : H) : option H :=
  match my_puts (literal "Hello, world") h with
  | Some (_, h') => Some h'
  | None => None
  end.

(** What the host has become after being handed the characters [cs], one
    call each, all on descriptor 0. *)
Definition emit (cs : list Z) (h : H) : H :=
  fold_left (fun h c => snd (my_putc 0 c h)) cs h.

End Host.

(** A host that only records the calls it receives, and answers [ch]. *)
Definition recorder (fd ch : Z) (log : list (Z * Z)) : Z * list (Z * Z) :=
  (ch, log ++ [(fd, ch)]).

End Hello.

(** ** memory.c with every array access checked *)

Module Checked.
Import Memory.

(** [a[i] = f(i, a[i])] on the array that [get] reads and [set] writes.  An
    index outside the array is an access C gives no meaning to: [None]. *)
Definition update {A : Type} (get : memory -> list A)
    (set : (list A -> list A) -> memory -> memory)
    (f : Z -> A -> A) (i : Z) (m : memory) : option memory :=
  if (0 <=? i) && (i <? Z.of_nat (length (get m)))
  then Some (set (alter (f i) (Z.to_nat i)) m)
  else None.

(** [for (int i = 0; i < bound; i++) body], where a pass may fail; after a
    failed pass nothing more is done. *)
Definition for_lt_checked {S : Type} (bound : Z) (body : Z -> S -> option S)
    (s : S) : option S :=
  foldl (fun os i => match os with Some s' => body i s' | None => None end)
        (Some s) (seqZ 0 bound).

Definition process_i8_checked : memory -> option memory :=
  for_lt_checked ITEMS (update buffer_i8 with_i8 add_i8).
Definition process_i16_checked : memory -> option memory :=
  for_lt_checked ITEMS (update buffer_i16 with_i16 add_i16).
Definition process_i32_checked : memory -> option memory :=
  for_lt_checked ITEMS (update buffer_i32 with_i32 add_i32).
Definition process_i64_checked : memory -> option memory :=
  for_lt_checked ITEMS (update buffer_i64 with_i64 add_i64).
Definition process_f32_checked : memory -> option memory :=
  for_lt_checked ITEMS (update buffer_f32 with_f32 add_f32).
Definition process_f64_checked : memory -> option memory :=
  for_lt_checked ITEMS (update buffer_f64 with_f64 add_f64).

(** One routine after another; a failed one ends the run. *)
Definition and_then (r : option memory) (next : memory -> option memory)
  : option memory :=
  match r with Some m => next m | None => None end.

Definition process_all_checked (m : memory) : option memory :=
  let r := process_i8_checked m in
  let r := and_then r process_i16_checked in
  let r := and_then r process_i32_checked in
  let r := and_then r process_i64_checked in
  let r := and_then r process_f32_checked in
  and_then r process_f64_checked.

End Checked.

(** ** Relations between inputs, used to state symmetries *)

Module Mirror.
Import FP.

(** Unary minus on a [double]. *)
Definition opp : double -> double := SFopp.

Definition is_infinite (x : double) : bool :=
  match x with S754_infinity _ => true | _ => false end.

(** [mirror a b]: [b] is [a] with the opposite sign; two zeros are mirror
    images whatever their signs, and so are two NaNs. *)
Definition mirror (a b : double) : Prop :=
  match a, b with
  | S754_zero _, S754_zero _ => True
  | S754_nan, S754_nan => True
  | S754_infinity s, S754_infinity s' => s' = negb s
  | S754_finite s m e, S754_finite s' m' e' => s' = negb s /\ m' = m /\ e' = e
  | _, _ => False
  end.

End Mirror.

(** ** The normal form of a small integer as a floating-point number *)

Module Exact.

(** The mantissa that represents the positive integer [n] at precision
    [prec]: [n] shifted left until it fills [prec] bits. *)
Definition normal_mantissa (prec : Z) (n : positive) : positive :=
  Z.to_pos (Z.pos n * 2 ^ (prec - Z.pos (digits2_pos n))).

(** The exponent that goes with it. *)
Definition normal_exponent (prec : Z) (n : positive) : Z :=
  Z.pos (digits2_pos n) - prec.

End Exact.

(** * Properties *)

(** ** The light switch *)

Section LightProperties.
Import Light.

Lemma run_snoc (cs : list call) (c : call) (s : state) :
  run (cs ++ [c]) s = snd (exec c (run cs s)).
Proof. unfold run. now rewrite fold_left_app. Qed.

Lemma last_change_snoc (cs : list call) (c : call) :
  last_change (cs ++ [c]) =
  if changes_state c then Some c else last_change cs.
Proof.
  unfold last_change. rewrite List.filter_app. cbn [List.filter].
  destruct (changes_state c).
  - apply last_snoc.
  - now rewrite app_nil_r.
Qed.

(** [lit] is decided by the last writer alone. *)
Lemma lit_run (cs : list call) (s : state) :
  lit (run cs s) =
  match last_change cs with
  | Some TurnOn => 1
  | Some _ => 0
  | None => lit s
  end.
Proof.
  induction cs as [|c cs IH] using rev_ind; [reflexivity|].
  rewrite run_snoc, last_change_snoc.
  destruct c; cbn; [reflexivity | reflexivity | exact IH].
Qed.

Lemma last_change_writes (cs : list call) :
  last_change cs <> Some IsLit.
Proof.
  induction cs as [|c cs IH] using rev_ind; [discriminate|].
  rewrite last_change_snoc. destruct c; cbn; congruence.
Qed.

(** C10.  [lit] starts at 0; after any sequence of calls to [turn_on],
    [turn_off] and [is_lit] it is 0 or 1; [is_lit] returns [lit] and leaves
    the state alone; the value it returns is 1 exactly when the most recent
    state-changing call was [turn_on], and 0 exactly when there was none or
    it was [turn_off]. *)
Theorem light_switch_invariant (cs : list call) :
  lit init = 0 /\
  (lit (run cs init) = 0 \/ lit (run cs init) = 1) /\
  is_lit (run cs init) = (lit (run cs init), run cs init) /\
  run (cs ++ [IsLit]) init = run cs init /\
  (fst (is_lit (run cs init)) = 1 <-> last_change cs = Some TurnOn) /\
  (fst (is_lit (run cs init)) = 0 <->
   last_change cs = None \/ last_change cs = Some TurnOff).
Proof.
  pose proof (lit_run cs init) as Hlit.
  pose proof (last_change_writes cs) as Hw.
  split; [reflexivity|].
  split; [|split; [reflexivity|split; [apply run_snoc|]]];
    cbn [is_lit fst];
    destruct (last_change cs) as [[]|]; cbn in Hlit; rewrite Hlit;
    intuition congruence.
Qed.

End LightProperties.

(** ** The Mandelbrot iteration *)

Section MandelbrotProperties.
Import Mandelbrot FP.

Variables cx cy : double.

Lemma loop_unfold (fuel : nat) (m : Z) (l : locals) :
  loop fuel cx cy m l =
  if loop_test m l then
    match fuel with
    | O => None
    | S fuel' => loop fuel' cx cy m (loop_body cx cy l)
    end
  else Some (i l).
Proof. destruct fuel; reflexivity. Qed.

(** Below the iteration bound the counter does not wrap. *)
Lemma loop_body_i (m : Z) (l : locals) :
  m < 2 ^ 32 -> 0 <= i l < m -> i (loop_body cx cy l) = i l + 1.
Proof.
  intros Hm Hi. cbn [loop_body i].
  unfold Int.to_unsigned, Int.wrap_unsigned. apply Z.mod_small. lia.
Qed.

Lemma loop_test_lt (m : Z) (l : locals) :
  loop_test m l = true -> i l < m.
Proof.
  unfold loop_test. intros [H _]%andb_prop. lia.
Qed.

(** With at least [maxIters - i] units of fuel the loop runs to its exit,
    and leaves with a counter between the one it started from and the
    bound. *)
Lemma loop_enough_fuel (fuel : nat) :
  forall (m : Z) (l : locals),
    m < 2 ^ 32 -> 0 <= i l <= m -> (Z.to_nat (m - i l) <= fuel)%nat ->
    exists r, loop fuel cx cy m l = Some r /\ i l <= r <= m.
Proof.
  induction fuel as [|fuel IH]; intros m l Hm Hi Hfuel;
    rewrite loop_unfold; destruct (loop_test m l) eqn:Ht;
    try (exists (i l); split; [reflexivity | lia]).
  - apply loop_test_lt in Ht. lia.
  - apply loop_test_lt in Ht.
    assert (Hi' : i (loop_body cx cy l) = i l + 1)
      by (apply (loop_body_i m); lia).
    destruct (IH m (loop_body cx cy l)) as (r & Hr & Hb); [lia..|].
    exists r. split; [exact Hr | lia].
Qed.

(** Two runs from the same locals under bounds [m1 <= m2]: the shorter run
    returns the longer run's result, cut off at [m1]. *)
Lemma loop_two_bounds (fuel1 : nat) :
  forall (fuel2 : nat) (m1 m2 : Z) (l : locals),
    m2 < 2 ^ 32 -> m1 <= m2 -> 0 <= i l <= m1 ->
    (Z.to_nat (m1 - i l) <= fuel1)%nat ->
    (Z.to_nat (m2 - i l) <= fuel2)%nat ->
    exists r1 r2,
      loop fuel1 cx cy m1 l = Some r1 /\
      loop fuel2 cx cy m2 l = Some r2 /\
      r1 = Z.min r2 m1.
Proof.
  induction fuel1 as [|fuel1 IH]; intros fuel2 m1 m2 l Hm Hle Hi Hf1 Hf2.
  - (* no fuel: the counter already sits at [m1] *)
    assert (Heq : i l = m1) by lia.
    destruct (loop_enough_fuel fuel2 m2 l) as (r2 & Hr2 & Hb2); [lia..|].
    exists m1, r2. rewrite loop_unfold. unfold loop_test.
    rewrite Heq, Z.ltb_irrefl. cbn [andb]. rewrite <- Heq.
    repeat split; [exact Hr2 | lia].
  - rewrite (loop_unfold (S fuel1)), (loop_unfold fuel2).
    unfold loop_test.
    destruct (Z.ltb_spec (i l) m1) as [Hlt|Hge].
    + assert (Hlt2 : (i l <? m2) = true) by (apply Z.ltb_lt; lia).
      rewrite Hlt2.
      cbn [andb]. destruct (inside l).
      * destruct fuel2 as [|fuel2]; [lia|].
        assert (Hi' : i (loop_body cx cy l) = i l + 1)
          by (apply (loop_body_i m1); lia).
        apply IH; lia.
      * exists (i l), (i l). repeat split; lia.
    + cbn [andb]. fold (loop_test m2 l). rewrite <- loop_unfold.
      destruct (loop_enough_fuel fuel2 m2 l) as (r2 & Hr2 & Hb2); [lia..|].
      exists (i l), r2. repeat split; [exact Hr2 | lia].
Qed.

End MandelbrotProperties.

Section MandelbrotResults.
Import Mandelbrot FP.

(** C3.  Whatever the point and the bound, [iterate_mandelbrot] returns, and
    what it returns lies in [[0, maxIters]]; with bound 0 it returns 0. *)
Theorem iterate_mandelbrot_range (cx cy : double) (maxIters : Z) :
  Int.unsigned_range maxIters ->
  (exists r, iterate_mandelbrot cx cy maxIters = Some r /\
             0 <= r <= maxIters) /\
  iterate_mandelbrot cx cy 0 = Some 0.
Proof.
  intros [Hlo Hhi]. split.
  - unfold iterate_mandelbrot.
    destruct (loop_enough_fuel cx cy (Z.to_nat maxIters) maxIters entry)
      as (r & Hr & Hb); cbn [entry i]; try lia.
    exists r. split; [exact Hr | exact Hb].
  - unfold iterate_mandelbrot. rewrite loop_unfold. reflexivity.
Qed.

Lemma iterate_mandelbrot_range_witness :
  Int.unsigned_range 7 /\
  ((exists r, iterate_mandelbrot (D.of_int 1) zero 7 = Some r /\
              0 <= r <= 7) /\
   iterate_mandelbrot (D.of_int 1) zero 0 = Some 0).
Proof.
  assert (H : Int.unsigned_range 7) by (unfold Int.unsigned_range; lia).
  split; [exact H | exact (iterate_mandelbrot_range (D.of_int 1) zero 7 H)].
Defined.

(** C2.  For a fixed point the result is non-decreasing in the bound, and
    for [m1 <= m2] the result under [m1] is the minimum of [m1] and the
    result under [m2]. *)
Theorem iterate_mandelbrot_monotone (cx cy : double) (m1 m2 : Z) :
  Int.unsigned_range m1 -> Int.unsigned_range m2 -> m1 <= m2 ->
  exists r1 r2,
    iterate_mandelbrot cx cy m1 = Some r1 /\
    iterate_mandelbrot cx cy m2 = Some r2 /\
    r1 <= r2 /\
    r1 = Z.min r2 m1.
Proof.
  intros [Hlo1 Hhi1] [Hlo2 Hhi2] Hle. unfold iterate_mandelbrot.
  destruct (loop_two_bounds cx cy (Z.to_nat m1) (Z.to_nat m2) m1 m2 entry)
    as (r1 & r2 & Hr1 & Hr2 & Hmin); cbn [entry i]; try lia.
  exists r1, r2. repeat split; try assumption. lia.
Qed.

Lemma iterate_mandelbrot_monotone_witness :
  Int.unsigned_range 1 /\ Int.unsigned_range 9 /\ 1 <= 9 /\
  exists r1 r2,
    iterate_mandelbrot (D.of_int 1) zero 1 = Some r1 /\
    iterate_mandelbrot (D.of_int 1) zero 9 = Some r2 /\
    r1 <= r2 /\
    r1 = Z.min r2 1.
Proof.
  assert (H1 : Int.unsigned_range 1) by (unfold Int.unsigned_range; lia).
  assert (H9 : Int.unsigned_range 9) by (unfold Int.unsigned_range; lia).
  assert (Hle : 1 <= 9) by lia.
  repeat split; try lia.
  exact (iterate_mandelbrot_monotone (D.of_int 1) zero 1 9 H1 H9 Hle).
Defined.

(** NaN is absorbing for the sum in the escape test, and compares below
    nothing. *)
Lemma add_nan_l (y : double) : D.add S754_nan y = S754_nan.
Proof. reflexivity. Qed.

Lemma add_nan_r (x : double) : D.add x S754_nan = S754_nan.
Proof. destruct x; reflexivity. Qed.

Lemma add_zero_nan (c : double) :
  is_nan c = true -> D.add zero c = S754_nan.
Proof. destruct c; cbn; congruence. Qed.

Lemma inside_entry : inside entry = true.
Proof. vm_compute. reflexivity. Qed.

(** After the first pass the locals hold [c] itself, up to the sign of a
    zero. *)
Lemma first_pass (cx cy : double) :
  loop_body cx cy entry =
  {| zx := D.add zero cx; zy := D.add zero cy; i := 1 |}.
Proof. reflexivity. Qed.

Lemma nan_not_inside (cx cy : double) :
  is_nan cx || is_nan cy = true -> inside (loop_body cx cy entry) = false.
Proof.
  intros H. rewrite first_pass. unfold inside. cbn [zx zy].
  apply orb_prop in H. destruct H as [H|H]; rewrite (add_zero_nan _ H).
  - reflexivity.
  - change (D.mul S754_nan S754_nan) with S754_nan. now rewrite add_nan_r.
Qed.

(** The first pass is taken whenever the bound allows one. *)
Lemma loop_first_pass (cx cy : double) (maxIters : Z) :
  1 <= maxIters ->
  iterate_mandelbrot cx cy maxIters =
  loop (Nat.pred (Z.to_nat maxIters)) cx cy maxIters (loop_body cx cy entry).
Proof.
  intros Hm. unfold iterate_mandelbrot.
  destruct (Z.to_nat maxIters) as [|fuel] eqn:Hfuel; [lia|].
  rewrite loop_unfold. unfold loop_test. rewrite inside_entry.
  cbn [entry i andb Nat.pred].
  destruct (Z.ltb_spec 0 maxIters); [reflexivity | lia].
Qed.

(** C1, as the specification words it, fails: with [cx] NaN and bound 2
    the function returns 1, not 2. *)
Lemma iterate_mandelbrot_nan_counterexample :
  is_nan S754_nan || is_nan zero = true /\
  iterate_mandelbrot S754_nan zero 2 = Some 1 /\
  iterate_mandelbrot S754_nan zero 2 <> Some 2.
Proof.
  split; [reflexivity|]. split; [vm_compute; reflexivity|].
  vm_compute. discriminate.
Qed.

(** C1, amended.  When a coordinate is NaN, the sum in the escape test is
    NaN from the first pass on, the comparison with 4.0 is false, and the
    loop is left at once: the result is 1, or 0 when the bound is 0. *)
Theorem iterate_mandelbrot_nan (cx cy : double) (maxIters : Z) :
  is_nan cx || is_nan cy = true ->
  Int.unsigned_range maxIters ->
  iterate_mandelbrot cx cy maxIters = Some (Z.min maxIters 1).
Proof.
  intros Hnan [Hlo Hhi].
  destruct (Z.eq_dec maxIters 0) as [->|Hpos].
  - unfold iterate_mandelbrot. rewrite loop_unfold. reflexivity.
  - rewrite loop_first_pass by lia. rewrite loop_unfold.
    unfold loop_test. rewrite (nan_not_inside _ _ Hnan), andb_false_r.
    rewrite first_pass. cbn [i]. f_equal. lia.
Qed.

Lemma iterate_mandelbrot_nan_witness :
  is_nan zero || is_nan S754_nan = true /\ Int.unsigned_range 1000 /\
  iterate_mandelbrot zero S754_nan 1000 = Some (Z.min 1000 1).
Proof.
  assert (Hn : is_nan zero || is_nan S754_nan = true) by reflexivity.
  assert (Hr : Int.unsigned_range 1000) by (unfold Int.unsigned_range; lia).
  split; [exact Hn|]. split; [exact Hr|].
  exact (iterate_mandelbrot_nan zero S754_nan 1000 Hn Hr).
Defined.

(** The origin is a fixed point of the loop body for [c = 0], and it lies
    inside the escape radius. *)
Lemma origin_fixed (n : Z) :
  loop_body zero zero {| zx := zero; zy := zero; i := n |} =
  {| zx := zero; zy := zero; i := Int.to_unsigned (n + 1) |}.
Proof. reflexivity. Qed.

Lemma origin_loop (fuel : nat) :
  forall (m n : Z),
    m < 2 ^ 32 -> 0 <= n <= m -> (Z.to_nat (m - n) <= fuel)%nat ->
    loop fuel zero zero m {| zx := zero; zy := zero; i := n |} = Some m.
Proof.
  induction fuel as [|fuel IH]; intros m n Hm Hn Hfuel;
    rewrite loop_unfold; unfold loop_test;
    change (inside {| zx := zero; zy := zero; i := n |}) with true;
    cbn [i]; rewrite andb_true_r;
    destruct (Z.ltb_spec n m) as [Hlt|Hge];
    try (f_equal; lia).
  rewrite origin_fixed. unfold Int.to_unsigned, Int.wrap_unsigned.
    rewrite Z.mod_small by lia. apply IH; lia.
Qed.

(** C7.  At [cx = 0], [cy = 0] the orbit stays at the origin and the loop
    runs to the bound: the result is [maxIters]. *)
Theorem iterate_mandelbrot_origin (maxIters : Z) :
  Int.unsigned_range maxIters ->
  iterate_mandelbrot (D.of_int 0) (D.of_int 0) maxIters = Some maxIters /\
  forall n : nat,
    zx (orbit (D.of_int 0) (D.of_int 0) n) = zero /\
    zy (orbit (D.of_int 0) (D.of_int 0) n) = zero /\
    inside (orbit (D.of_int 0) (D.of_int 0) n) = true.
Proof.
  intros [Hlo Hhi]. change (D.of_int 0) with zero. split.
  - unfold iterate_mandelbrot, entry. apply origin_loop; lia.
  - intros n. induction n as [|n (IHx & IHy & _)]; [now vm_compute|].
    cbn [orbit]. destruct (orbit zero zero n) as [x y k].
    cbn [zx zy] in IHx, IHy. subst x y. rewrite origin_fixed.
    repeat split.
Qed.

Lemma iterate_mandelbrot_origin_witness :
  Int.unsigned_range 4294967295 /\
  iterate_mandelbrot (D.of_int 0) (D.of_int 0) 4294967295 = Some 4294967295.
Proof.
  assert (Hr : Int.unsigned_range 4294967295)
    by (unfold Int.unsigned_range; lia).
  split; [exact Hr | exact (proj1 (iterate_mandelbrot_origin _ Hr))].
Defined.

(** C8.  At [cx = 2], [cy = 0] the first pass lands on [z = 2], whose
    squared magnitude is exactly 4.0; the test [< 4.0] fails and the result
    is 1 for every bound of at least 1. *)
Theorem iterate_mandelbrot_two (maxIters : Z) :
  Int.unsigned_range maxIters -> 1 <= maxIters ->
  iterate_mandelbrot (D.of_int 2) (D.of_int 0) maxIters = Some 1 /\
  zx (loop_body (D.of_int 2) (D.of_int 0) entry) = D.of_int 2 /\
  zy (loop_body (D.of_int 2) (D.of_int 0) entry) = D.of_int 0 /\
  D.add (D.mul (D.of_int 2) (D.of_int 2)) (D.mul (D.of_int 0) (D.of_int 0))
  = four.
Proof.
  intros [Hlo Hhi] Hone. split; [|repeat split; vm_compute; reflexivity].
  rewrite loop_first_pass by lia. rewrite loop_unfold. unfold loop_test.
  assert (Hout : inside (loop_body (D.of_int 2) (D.of_int 0) entry) = false)
    by (vm_compute; reflexivity).
  rewrite Hout, andb_false_r. reflexivity.
Qed.

Lemma iterate_mandelbrot_two_witness :
  Int.unsigned_range 1000 /\ 1 <= 1000 /\
  iterate_mandelbrot (D.of_int 2) (D.of_int 0) 1000 = Some 1.
Proof.
  assert (Hr : Int.unsigned_range 1000) by (unfold Int.unsigned_range; lia).
  assert (Hle : 1 <= 1000) by lia.
  split; [exact Hr|]. split; [exact Hle|].
  exact (proj1 (iterate_mandelbrot_two 1000 Hr Hle)).
Defined.

End MandelbrotResults.

(** ** The typed buffers *)

Section ForLoop.
Import Memory.
Context {S : Type}.

Lemma for_lt_0 (body : Z -> S -> S) (s : S) : for_lt 0 body s = s.
Proof. reflexivity. Qed.

Lemma for_lt_succ (n : nat) (body : Z -> S -> S) (s : S) :
  for_lt (Z.of_nat (Datatypes.S n)) body s =
  body (Z.of_nat n) (for_lt (Z.of_nat n) body s).
Proof.
  unfold for_lt. rewrite seqZ_S, foldl_app. reflexivity.
Qed.

(** Loop invariants: [P i s] holds on entry to pass [i]. *)
Lemma for_lt_invariant (P : Z -> S -> Prop) (body : Z -> S -> S)
    (bound : Z) (s : S) :
  0 <= bound ->
  P 0 s ->
  (forall i s', 0 <= i < bound -> P i s' -> P (i + 1) (body i s')) ->
  P bound (for_lt bound body s).
Proof.
  intros Hb H0 Hstep. rewrite <- (Z2Nat.id bound Hb).
  assert (Hn : (Z.to_nat bound <= Z.to_nat bound)%nat) by lia.
  revert Hn. generalize (Z.to_nat bound) at 1 3 4 as n.
  induction n as [|n IH]; intros Hn.
  - exact H0.
  - rewrite for_lt_succ.
    replace (Z.of_nat (Datatypes.S n)) with (Z.of_nat n + 1) by lia.
    apply Hstep; [lia | apply IH; lia].
Qed.

End ForLoop.

Section Scan.
Import Memory.
Context {A : Type}.
Variable f : Z -> A -> A.

(** One pass over a list: the element at [k] has met [f k] once if the loop
    got that far, and nothing else. *)
Lemma scan_lookup (bound : Z) (l : list A) (k : nat) :
  0 <= bound ->
  for_lt bound (fun i => alter (f i) (Z.to_nat i)) l !! k =
  if Z.of_nat k <? bound then f (Z.of_nat k) <$> l !! k else l !! k.
Proof.
  intros Hb.
  pose (P := fun (n : Z) (l' : list A) =>
    l' !! k = if Z.of_nat k <? n then f (Z.of_nat k) <$> l !! k else l !! k).
  apply (for_lt_invariant P); subst P; cbn beta.
  - exact Hb.
  - destruct (Z.ltb_spec (Z.of_nat k) 0); [lia | reflexivity].
  - intros i l' Hi IH.
    destruct (decide (Z.to_nat i = k)) as [<-|Hne].
    + rewrite list_lookup_alter_eq, IH, Z2Nat.id by lia.
      rewrite Z.ltb_irrefl.
      destruct (Z.ltb_spec i (i + 1)); [reflexivity | lia].
    + rewrite list_lookup_alter_ne, IH by exact Hne.
      destruct (Z.ltb_spec (Z.of_nat k) i),
               (Z.ltb_spec (Z.of_nat k) (i + 1)); try reflexivity; lia.
Qed.

Lemma scan_length (bound : Z) (l : list A) :
  length (for_lt bound (fun i => alter (f i) (Z.to_nat i)) l) = length l.
Proof.
  unfold for_lt. generalize (seqZ 0 bound) as idx. intros idx. revert l.
  induction idx as [|i idx IH]; intros l; [reflexivity|].
  cbn [foldl]. rewrite IH. apply length_alter.
Qed.

End Scan.

(** ** Conversion of small integers to [double] *)

Section IntToDouble.
Import FP.

Lemma digits2_pos_size (p : positive) : digits2_pos p = Pos.size p.
Proof. induction p as [p IH|p IH|]; cbn; now rewrite ?IH. Qed.

Lemma digits_bound (p : positive) (n : Z) :
  0 <= n -> Z.pos p < 2 ^ n -> Z.pos (digits2_pos p) <= n.
Proof.
  intros Hn Hp. rewrite digits2_pos_size.
  pose proof (Pos.size_le p) as Hle.
  apply Pos2Z.pos_le_pos in Hle.
  rewrite Pos2Z.inj_pow, (Pos2Z.inj_xO p) in Hle.
  assert (Hlt : 2 ^ Z.pos (Pos.size p) < 2 ^ Z.succ n)
    by (rewrite Z.pow_succ_r by exact Hn; lia).
  apply Z.pow_lt_mono_r_iff in Hlt; lia.
Qed.

Lemma iter_xO_value (p k : positive) :
  Z.pos (Pos.iter xO p k) = Z.pos p * 2 ^ Z.pos k.
Proof.
  induction k as [|k IH] using Pos.peano_ind.
  - cbn [Pos.iter]. rewrite Pos2Z.inj_xO. lia.
  - rewrite Pos.iter_succ, Pos2Z.inj_xO, IH, Pos2Z.inj_succ.
    rewrite Z.pow_succ_r by lia. lia.
Qed.

Lemma iter_xO_digits (p k : positive) :
  Z.pos (digits2_pos (Pos.iter xO p k)) = Z.pos (digits2_pos p) + Z.pos k.
Proof.
  induction k as [|k IH] using Pos.peano_ind.
  - cbn [Pos.iter digits2_pos]. lia.
  - rewrite Pos.iter_succ. cbn [digits2_pos]. lia.
Qed.

(** Aligning a mantissa to a smaller exponent shifts it left, exactly. *)
Lemma shl_align_le (p : positive) (e e' : Z) :
  e' <= e ->
  exists m, shl_align p e e' = (m, e') /\
            Z.pos m = Z.pos p * 2 ^ (e - e') /\
            Z.pos (digits2_pos m) = Z.pos (digits2_pos p) + (e - e').
Proof.
  intros Hle. unfold shl_align.
  destruct (e' - e) as [|d|d] eqn:Hd; [|lia|].
  - exists p. replace e' with e by lia.
    rewrite Z.sub_diag, Z.pow_0_r. repeat split; lia.
  - exists (Pos.iter xO p d). replace (e - e') with (Z.pos d) by lia.
    repeat split; [apply iter_xO_value | apply iter_xO_digits].
Qed.

(** A full-width mantissa in the normal exponent range needs no rounding. *)
Lemma shr_fexp_full (m : positive) (e : Z) :
  Z.pos (digits2_pos m) = D.prec -> -1074 <= e ->
  shr_fexp D.prec D.emax (Z.pos m) e loc_Exact =
  ({| shr_m := Z.pos m; shr_r := false; shr_s := false |}, e).
Proof.
  intros Hd He. unfold shr_fexp, fexp, emin, Zdigits2.
  rewrite Hd. unfold D.prec, D.emax.
  replace (Z.max (53 + e - 53) (3 - 1024 - 53) - e) with 0 by lia.
  reflexivity.
Qed.

Lemma binary_round_aux_full (s : bool) (m : positive) (e : Z) :
  Z.pos (digits2_pos m) = D.prec -> -1074 <= e <= 971 ->
  binary_round_aux D.prec D.emax s (Z.pos m) e loc_Exact = S754_finite s m e.
Proof.
  intros Hd He. unfold binary_round_aux.
  rewrite shr_fexp_full by (exact Hd || lia).
  cbn [shr_m loc_of_shr_record round_nearest_even].
  rewrite shr_fexp_full by (exact Hd || lia).
  cbn [shr_m]. unfold D.prec, D.emax.
  destruct (Z.leb_spec e (1024 - 53)); [reflexivity | lia].
Qed.

(** Integers below [2^53] convert without rounding. *)
Lemma of_int_exact (z : Z) :
  0 <= z < 2 ^ 53 ->
  exactly (D.of_int z) z /\ D.of_int z <> S754_zero true.
Proof.
  intros [Hlo Hhi]. destruct z as [|p|p]; [now split | | lia].
  pose proof (digits_bound p 53 ltac:(lia) Hhi) as Hd.
  unfold D.of_int, binary_normalize, binary_round.
  assert (Hf : fexp D.prec D.emax (Z.pos (digits2_pos p) + 0) =
               Z.pos (digits2_pos p) - 53)
    by (unfold fexp, emin, D.prec, D.emax; lia).
  rewrite Hf.
  destruct (shl_align_le p 0 (Z.pos (digits2_pos p) - 53))
    as (m & -> & Hm & Hdm); [lia|].
  rewrite binary_round_aux_full by (unfold D.prec; lia).
  split; [|discriminate]. unfold exactly.
  destruct (Z.leb_spec 0 (Z.pos (digits2_pos p) - 53)) as [Hz|Hz].
  - replace (Z.pos (digits2_pos p) - 53) with 0 in * by lia.
    rewrite Hm. lia.
  - rewrite Hm, Z.sub_0_l. reflexivity.
Qed.

(** Adding to a positive zero returns the other operand. *)
Lemma add_zero_l (y : double) :
  y <> S754_zero true -> D.add (S754_zero false) y = y.
Proof. destruct y as [[]| | |]; cbn; congruence. Qed.

End IntToDouble.

(** ** The scans of memory.c *)

Section MemoryProperties.
Import Memory FP.

Lemma ITEMS_value : ITEMS = 1048576.
Proof. reflexivity. Qed.

(** From here on the loop bound is only known through [ITEMS_value]: no
    proof step unrolls a scan. *)
#[local] Opaque ITEMS.

(** A loop whose every pass writes one array is a loop over that array. *)
Ltac fold_with :=
  let idx := fresh "idx" in
  let m := fresh "m" in
  intros idx; induction idx as [|? ? IH]; intros m;
  [ destruct m; reflexivity | cbn [foldl]; rewrite IH; reflexivity ].

Lemma fold_with_i8 (g : Z -> list Z -> list Z) :
  forall idx m,
    foldl (fun s i => with_i8 (g i) s) m idx =
    with_i8 (fun l => foldl (fun l i => g i l) l idx) m.
Proof. fold_with. Qed.

Lemma fold_with_i16 (g : Z -> list Z -> list Z) :
  forall idx m,
    foldl (fun s i => with_i16 (g i) s) m idx =
    with_i16 (fun l => foldl (fun l i => g i l) l idx) m.
Proof. fold_with. Qed.

Lemma fold_with_i32 (g : Z -> list Z -> list Z) :
  forall idx m,
    foldl (fun s i => with_i32 (g i) s) m idx =
    with_i32 (fun l => foldl (fun l i => g i l) l idx) m.
Proof. fold_with. Qed.

Lemma fold_with_i64 (g : Z -> list Z -> list Z) :
  forall idx m,
    foldl (fun s i => with_i64 (g i) s) m idx =
    with_i64 (fun l => foldl (fun l i => g i l) l idx) m.
Proof. fold_with. Qed.

Lemma fold_with_f32 (g : Z -> list float -> list float) :
  forall idx m,
    foldl (fun s i => with_f32 (g i) s) m idx =
    with_f32 (fun l => foldl (fun l i => g i l) l idx) m.
Proof. fold_with. Qed.

Lemma fold_with_f64 (g : Z -> list double -> list double) :
  forall idx m,
    foldl (fun s i => with_f64 (g i) s) m idx =
    with_f64 (fun l => foldl (fun l i => g i l) l idx) m.
Proof. fold_with. Qed.

(** Each routine, seen as one write to its array. *)
Lemma process_i8_scan (m : memory) :
  process_i8 m =
  with_i8 (for_lt ITEMS (fun i => alter (add_i8 i) (Z.to_nat i))) m.
Proof. unfold process_i8, for_lt. apply fold_with_i8. Qed.

Lemma process_i16_scan (m : memory) :
  process_i16 m =
  with_i16 (for_lt ITEMS (fun i => alter (add_i16 i) (Z.to_nat i))) m.
Proof. unfold process_i16, for_lt. apply fold_with_i16. Qed.

Lemma process_i32_scan (m : memory) :
  process_i32 m =
  with_i32 (for_lt ITEMS (fun i => alter (add_i32 i) (Z.to_nat i))) m.
Proof. unfold process_i32, for_lt. apply fold_with_i32. Qed.

Lemma process_i64_scan (m : memory) :
  process_i64 m =
  with_i64 (for_lt ITEMS (fun i => alter (add_i64 i) (Z.to_nat i))) m.
Proof. unfold process_i64, for_lt. apply fold_with_i64. Qed.

Lemma process_f32_scan (m : memory) :
  process_f32 m =
  with_f32 (for_lt ITEMS (fun i => alter (add_f32 i) (Z.to_nat i))) m.
Proof. unfold process_f32, for_lt. apply fold_with_f32. Qed.

Lemma process_f64_scan (m : memory) :
  process_f64 m =
  with_f64 (for_lt ITEMS (fun i => alter (add_f64 i) (Z.to_nat i))) m.
Proof. unfold process_f64, for_lt. apply fold_with_f64. Qed.

Lemma ITEMS_nonneg : 0 <= ITEMS.
Proof. rewrite ITEMS_value. lia. Qed.

(** What a scan leaves at an index of the array. *)
Lemma process_i8_lookup (m : memory) (i : Z) :
  0 <= i < ITEMS ->
  buffer_i8 (process_i8 m) !! Z.to_nat i =
  add_i8 i <$> buffer_i8 m !! Z.to_nat i.
Proof.
  intros Hi. rewrite process_i8_scan. cbn [with_i8 buffer_i8].
  rewrite scan_lookup by apply ITEMS_nonneg. rewrite Z2Nat.id by lia.
  destruct (Z.ltb_spec i ITEMS); [reflexivity | lia].
Qed.

Lemma process_f64_lookup (m : memory) (i : Z) :
  0 <= i < ITEMS ->
  buffer_f64 (process_f64 m) !! Z.to_nat i =
  add_f64 i <$> buffer_f64 m !! Z.to_nat i.
Proof.
  intros Hi. rewrite process_f64_scan. cbn [with_f64 buffer_f64].
  rewrite scan_lookup by apply ITEMS_nonneg. rewrite Z2Nat.id by lia.
  destruct (Z.ltb_spec i ITEMS); [reflexivity | lia].
Qed.

Lemma zeroed_i8 (i : Z) :
  0 <= i < ITEMS -> buffer_i8 zeroed !! Z.to_nat i = Some 0.
Proof.
  intros Hi. unfold zeroed. cbn [buffer_i8].
  apply lookup_replicate_2. lia.
Qed.

Lemma zeroed_f64 (i : Z) :
  0 <= i < ITEMS -> buffer_f64 zeroed !! Z.to_nat i = Some (S754_zero false).
Proof.
  intros Hi. unfold zeroed. cbn [buffer_f64].
  apply lookup_replicate_2. lia.
Qed.

(** Narrowing to [char], arithmetically. *)
Lemma to_int_small (z : Z) : - 2 ^ 31 <= z < 2 ^ 31 -> Int.to_int z = z.
Proof.
  intros Hz. unfold Int.to_int, Int.wrap_signed.
  rewrite Z.mod_small; lia.
Qed.

Lemma to_char_range (z : Z) : -128 <= Int.to_char z < 128.
Proof.
  unfold Int.to_char, Int.wrap_signed.
  pose proof (Z.mod_pos_bound (z + 2 ^ (8 - 1)) (2 ^ 8) ltac:(lia)). lia.
Qed.

Lemma to_char_add (z i : Z) : Int.to_char (Int.to_char z + i) = Int.to_char (z + i).
Proof.
  unfold Int.to_char, Int.wrap_signed. f_equal.
  replace ((z + 2 ^ (8 - 1)) mod 2 ^ 8 - 2 ^ (8 - 1) + i + 2 ^ (8 - 1))
    with ((z + 2 ^ (8 - 1)) mod 2 ^ 8 + i) by lia.
  rewrite Zplus_mod_idemp_l. f_equal. lia.
Qed.

Lemma bits8_to_char (z : Z) : Int.bits8 (Int.to_char z) = z mod 256.
Proof.
  unfold Int.bits8, Int.to_char, Int.wrap_signed.
  change (2 ^ 8) with 256. rewrite Zminus_mod_idemp_l. f_equal. lia.
Qed.

Lemma add_i8_first (i : Z) : 0 <= i < ITEMS -> add_i8 i 0 = Int.to_char i.
Proof.
  intros Hi. unfold add_i8. rewrite to_int_small; [reflexivity|].
  rewrite ITEMS_value in Hi. lia.
Qed.

Lemma add_i8_second (i : Z) :
  0 <= i < ITEMS -> add_i8 i (Int.to_char i) = Int.to_char (2 * i).
Proof.
  intros Hi. unfold add_i8. pose proof (to_char_range i) as Hc.
  rewrite to_int_small by (rewrite ITEMS_value in Hi; lia).
  rewrite to_char_add. f_equal. lia.
Qed.

(** C4.  From the zeroed array, one call of [process_i8] leaves at every
    index [i] the [char] that [i] narrows to, whose bit pattern is
    [i mod 256]; a second call leaves the [char] that [2 * i] narrows to,
    with bit pattern [(2 * i) mod 256]. *)
Theorem process_i8_from_zero (i : Z) :
  0 <= i < ITEMS ->
  length (buffer_i8 zeroed) = Z.to_nat ITEMS /\
  buffer_i8 zeroed !! Z.to_nat i = Some 0 /\
  buffer_i8 (process_i8 zeroed) !! Z.to_nat i = Some (Int.to_char i) /\
  Int.bits8 (Int.to_char i) = i mod 256 /\
  buffer_i8 (process_i8 (process_i8 zeroed)) !! Z.to_nat i
  = Some (Int.to_char (2 * i)) /\
  Int.bits8 (Int.to_char (2 * i)) = (2 * i) mod 256.
Proof.
  intros Hi.
  assert (H1 : buffer_i8 (process_i8 zeroed) !! Z.to_nat i
               = Some (Int.to_char i)).
  { rewrite process_i8_lookup, zeroed_i8 by exact Hi.
    cbn [fmap option_fmap option_map]. now rewrite add_i8_first. }
  split; [apply length_replicate|].
  split; [apply zeroed_i8, Hi|].
  split; [exact H1|].
  split; [apply bits8_to_char|].
  split; [|apply bits8_to_char].
  rewrite process_i8_lookup, H1 by exact Hi.
  cbn [fmap option_fmap option_map]. now rewrite add_i8_second.
Qed.

Lemma process_i8_from_zero_witness :
  0 <= 300 < ITEMS /\
  buffer_i8 (process_i8 zeroed) !! Z.to_nat 300 = Some (Int.to_char 300) /\
  Int.bits8 (Int.to_char 300) = 300 mod 256 /\
  buffer_i8 (process_i8 (process_i8 zeroed)) !! Z.to_nat 300
  = Some (Int.to_char (2 * 300)).
Proof.
  assert (Hi : 0 <= 300 < ITEMS) by (rewrite ITEMS_value; lia).
  pose proof (process_i8_from_zero 300 Hi) as (_ & _ & H1 & Hb & H2 & _).
  split; [exact Hi|]. split; [exact H1|]. split; [exact Hb | exact H2].
Defined.

(** C9.  From the zeroed array, one call of [process_f64] leaves at every
    index [i] the [double] that [i] converts to, and that [double] denotes
    the integer [i] itself: the conversion and the sum round nothing. *)
Theorem process_f64_from_zero (i : Z) :
  0 <= i < ITEMS ->
  buffer_f64 (process_f64 zeroed) !! Z.to_nat i = Some (D.of_int i) /\
  exactly (D.of_int i) i.
Proof.
  intros Hi.
  destruct (of_int_exact i) as [Hex Hnz]; [rewrite ITEMS_value in Hi; lia|].
  split; [|exact Hex].
  rewrite process_f64_lookup, zeroed_f64 by exact Hi.
  cbn [fmap option_fmap option_map]. unfold add_f64.
  now rewrite add_zero_l.
Qed.

Lemma process_f64_from_zero_witness :
  0 <= 1048575 < ITEMS /\
  buffer_f64 (process_f64 zeroed) !! Z.to_nat 1048575
  = Some (D.of_int 1048575) /\
  exactly (D.of_int 1048575) 1048575.
Proof.
  assert (Hi : 0 <= 1048575 < ITEMS) by (rewrite ITEMS_value; lia).
  split; [exact Hi | exact (process_f64_from_zero 1048575 Hi)].
Defined.

(** Reading a field through the write to another, or to itself.  The
    routine is replaced by its scan wherever it is written in the goal. *)
Ltac expose proc scan m :=
  let E := fresh "E" in
  pose proof (scan m) as E; revert E; generalize (proc m); intros ? ->.

Ltac through_scans :=
  repeat match goal with
    | |- context [process_i8 ?m] => expose process_i8 process_i8_scan m
    | |- context [process_i16 ?m] => expose process_i16 process_i16_scan m
    | |- context [process_i32 ?m] => expose process_i32 process_i32_scan m
    | |- context [process_i64 ?m] => expose process_i64 process_i64_scan m
    | |- context [process_f32 ?m] => expose process_f32 process_f32_scan m
    | |- context [process_f64 ?m] => expose process_f64 process_f64_scan m
    end;
  cbn [with_i8 with_i16 with_i32 with_i64 with_f32 with_f64
       buffer_i8 buffer_i16 buffer_i32 buffer_i64 buffer_f32 buffer_f64].

(** C6.  Each routine writes its own array and no other: the five other
    arrays come out as they went in, and the routine's own array keeps its
    length.  The routine yields the memory and nothing besides. *)
Theorem process_frame (m : memory) :
  (buffer_i16 (process_i8 m) = buffer_i16 m /\
   buffer_i32 (process_i8 m) = buffer_i32 m /\
   buffer_i64 (process_i8 m) = buffer_i64 m /\
   buffer_f32 (process_i8 m) = buffer_f32 m /\
   buffer_f64 (process_i8 m) = buffer_f64 m /\
   length (buffer_i8 (process_i8 m)) = length (buffer_i8 m)) /\
  (buffer_i8 (process_i16 m) = buffer_i8 m /\
   buffer_i32 (process_i16 m) = buffer_i32 m /\
   buffer_i64 (process_i16 m) = buffer_i64 m /\
   buffer_f32 (process_i16 m) = buffer_f32 m /\
   buffer_f64 (process_i16 m) = buffer_f64 m /\
   length (buffer_i16 (process_i16 m)) = length (buffer_i16 m)) /\
  (buffer_i8 (process_i32 m) = buffer_i8 m /\
   buffer_i16 (process_i32 m) = buffer_i16 m /\
   buffer_i64 (process_i32 m) = buffer_i64 m /\
   buffer_f32 (process_i32 m) = buffer_f32 m /\
   buffer_f64 (process_i32 m) = buffer_f64 m /\
   length (buffer_i32 (process_i32 m)) = length (buffer_i32 m)) /\
  (buffer_i8 (process_i64 m) = buffer_i8 m /\
   buffer_i16 (process_i64 m) = buffer_i16 m /\
   buffer_i32 (process_i64 m) = buffer_i32 m /\
   buffer_f32 (process_i64 m) = buffer_f32 m /\
   buffer_f64 (process_i64 m) = buffer_f64 m /\
   length (buffer_i64 (process_i64 m)) = length (buffer_i64 m)) /\
  (buffer_i8 (process_f32 m) = buffer_i8 m /\
   buffer_i16 (process_f32 m) = buffer_i16 m /\
   buffer_i32 (process_f32 m) = buffer_i32 m /\
   buffer_i64 (process_f32 m) = buffer_i64 m /\
   buffer_f64 (process_f32 m) = buffer_f64 m /\
   length (buffer_f32 (process_f32 m)) = length (buffer_f32 m)) /\
  (buffer_i8 (process_f64 m) = buffer_i8 m /\
   buffer_i16 (process_f64 m) = buffer_i16 m /\
   buffer_i32 (process_f64 m) = buffer_i32 m /\
   buffer_i64 (process_f64 m) = buffer_i64 m /\
   buffer_f32 (process_f64 m) = buffer_f32 m /\
   length (buffer_f64 (process_f64 m)) = length (buffer_f64 m)).
Proof.
  through_scans.
  repeat match goal with |- _ /\ _ => split end;
    first [apply scan_length | reflexivity].
Qed.

(** C5.  [process_all] ends in the memory that the six routines, called one
    after the other in the order i8, i16, i32, i64, f32, f64, end in; and
    each array of that memory is what its own routine alone makes of the
    array in the starting memory: every array is scanned once. *)
Theorem process_all_sequence (m : memory) :
  process_all m =
  process_f64 (process_f32 (process_i64 (process_i32 (process_i16
    (process_i8 m))))) /\
  buffer_i8 (process_all m) = buffer_i8 (process_i8 m) /\
  buffer_i16 (process_all m) = buffer_i16 (process_i16 m) /\
  buffer_i32 (process_all m) = buffer_i32 (process_i32 m) /\
  buffer_i64 (process_all m) = buffer_i64 (process_i64 m) /\
  buffer_f32 (process_all m) = buffer_f32 (process_f32 m) /\
  buffer_f64 (process_all m) = buffer_f64 (process_f64 m).
Proof.
  unfold process_all. cbv zeta. split; [reflexivity|].
  through_scans.
  repeat match goal with |- _ /\ _ => split end; reflexivity.
Qed.

(** The arrays are static: zeroed storage has the declared lengths, and a
    full round of scans keeps them. *)
Lemma zeroed_well_formed : well_formed zeroed.
Proof. split; apply length_replicate. Qed.

Lemma process_all_well_formed (m : memory) :
  well_formed m -> well_formed (process_all m).
Proof.
  intros [H8 H16 H32 H64 Hf32 Hf64]. unfold process_all. cbv zeta.
  split; through_scans; rewrite scan_length; assumption.
Qed.

End MemoryProperties.

(** * Further properties *)

(** ** The light switch, from any state *)

Section LightMore.
Import Light.

Lemma run_app (cs1 cs2 : list call) (s : state) :
  run (cs1 ++ cs2) s = run cs2 (run cs1 s).
Proof. unfold run. apply fold_left_app. Qed.

(** X16.  Calls of [is_lit] can be struck from a history: whatever the state the
    history starts from, the final state is the one the writes alone lead
    to, and it is the last write's value when there is a write. *)
Theorem is_lit_calls_removable (cs : list call) (s : state) :
  run cs s = run (List.filter changes_state cs) s /\
  (last_change cs = Some TurnOn -> run cs s = turn_on s) /\
  (last_change cs = Some TurnOff -> run cs s = turn_off s) /\
  (last_change cs = None -> run cs s = s).
Proof.
  split.
  - revert s. induction cs as [|c cs IH]; intros s; [reflexivity|].
    destruct c; cbn [List.filter changes_state]; unfold run in *;
      cbn [fold_left exec snd is_lit]; apply IH.
  - pose proof (lit_run cs s) as Hlit.
    assert (Heta : forall a b : state, lit a = lit b -> a = b)
      by (intros [a] [b]; cbn; congruence).
    repeat split; intros Hl; rewrite Hl in Hlit; apply Heta; exact Hlit.
Qed.

Lemma is_lit_calls_removable_witness :
  last_change [TurnOff; IsLit; TurnOn; IsLit] = Some TurnOn /\
  run [TurnOff; IsLit; TurnOn; IsLit] {| lit := 7 |} = turn_on {| lit := 7 |}.
Proof.
  assert (H : last_change [TurnOff; IsLit; TurnOn; IsLit] = Some TurnOn)
    by reflexivity.
  split; [exact H|].
  exact (proj1 (proj2 (is_lit_calls_removable _ {| lit := 7 |})) H).
Defined.

End LightMore.

(** ** hello.c *)

Section HelloProperties.
Import Hello.
Variable H : Type.
Variable my_putc : Z -> Z -> H -> Z * H.

Lemma emit_snoc (cs : list Z) (c : Z) (h : H) :
  emit H my_putc (cs ++ [c]) h = snd (my_putc 0 c (emit H my_putc cs h)).
Proof. unfold emit. now rewrite fold_left_app. Qed.

Lemma my_puts_loop_terminated (s rest : list Z) :
  Forall (fun c => c <> 0) s ->
  forall h, my_puts_loop H my_putc (s ++ 0 :: rest) h
            = Some (emit H my_putc s h).
Proof.
  induction 1 as [|c s Hc Hs IH]; intros h; [reflexivity|].
  cbn [app my_puts_loop]. destruct (Z.eqb_spec c 0) as [->|_]; [easy|].
  rewrite IH. reflexivity.
Qed.

(** X12.  A string of non-NUL characters followed by a NUL is handed to the host
    character by character, in order, on descriptor 0, then a newline (10)
    is; the NUL is not handed over, what lies behind it is not read, and
    [my_puts] returns 0. *)
Theorem my_puts_terminated (s rest : list Z) (h : H) :
  Forall (fun c => c <> 0) s ->
  my_puts H my_putc (s ++ 0 :: rest) h
  = Some (0, emit H my_putc (s ++ [10]) h).
Proof.
  intros Hs. unfold my_puts.
  rewrite (my_puts_loop_terminated s rest Hs h), emit_snoc. reflexivity.
Qed.

Lemma my_puts_loop_defined (str : list Z) :
  forall h, is_Some (my_puts_loop H my_putc str h) <-> In 0 str.
Proof.
  induction str as [|c str IH]; intros h; cbn [my_puts_loop In].
  - split; [intros [x Hx]; discriminate | tauto].
  - destruct (Z.eqb_spec c 0) as [->|Hc].
    + split; [now left | intros _; now eexists].
    + rewrite IH. split; [now right | intros [Heq|Hin]; [lia | exact Hin]].
Qed.

(** X13.  [my_puts] comes to an end within the memory it is given exactly when
    that memory holds a NUL; without one it reads past the end. *)
Theorem my_puts_needs_terminator (str : list Z) (h : H) :
  is_Some (my_puts H my_putc str h) <-> In 0 str.
Proof.
  rewrite <- (my_puts_loop_defined str h). unfold my_puts.
  destruct (my_puts_loop H my_putc str h) as [h'|].
  - split; intros _; now eexists.
  - split; intros [x Hx]; discriminate.
Qed.

(** X15.  [hello] hands the host the twelve characters of "Hello, world" and
    then a newline, and nothing else. *)
Theorem hello_output (h : H) :
  hello H my_putc h
  = Some (emit H my_putc
            [72; 101; 108; 108; 111; 44; 32; 119; 111; 114; 108; 100; 10] h).
Proof.
  unfold hello, my_puts.
  change (literal "Hello, world")
    with ([72; 101; 108; 108; 111; 44; 32; 119; 111; 114; 108; 100]
          ++ 0 :: []).
  rewrite my_puts_loop_terminated by (repeat constructor; discriminate).
  reflexivity.
Qed.

End HelloProperties.

Section HelloRecorded.
Import Hello.

(** X14.  Seen by a host that records its calls: [my_puts] makes one call per
    character before the first NUL and one more for the newline, every call
    on descriptor 0, and appends them to the log in order. *)
Theorem my_puts_recorded (s rest : list Z) (log : list (Z * Z)) :
  Forall (fun c => c <> 0) s ->
  my_puts _ recorder (s ++ 0 :: rest) log
  = Some (0, log ++ List.map (fun c => (0, c)) (s ++ [10])).
Proof.
  intros Hs. unfold my_puts.
  rewrite (my_puts_loop_terminated _ recorder s rest Hs log), <- emit_snoc.
  do 2 f_equal.
  generalize (s ++ [10]) as cs. intros cs. revert log.
  induction cs as [|c cs IH]; intros log; cbn [List.map].
  - now rewrite app_nil_r.
  - unfold emit in *. cbn [fold_left recorder snd]. rewrite IH.
    now rewrite <- app_assoc.
Qed.

Lemma my_puts_recorded_witness :
  Forall (fun c => c <> 0) [104; 105] /\
  my_puts _ recorder ([104; 105] ++ 0 :: [33]) []
  = Some (0, [] ++ List.map (fun c => (0, c)) ([104; 105] ++ [10])).
Proof.
  assert (Hs : Forall (fun c : Z => c <> 0) [104; 105])
    by (repeat constructor; discriminate).
  split; [exact Hs | exact (my_puts_recorded [104; 105] [33] [] Hs)].
Defined.

End HelloRecorded.

Section HelloWitness.
Import Hello.

Lemma my_puts_terminated_witness :
  Forall (fun c => c <> 0) [79; 75] /\
  my_puts _ recorder ([79; 75] ++ 0 :: [1; 2]) []
  = Some (0, emit _ recorder ([79; 75] ++ [10]) []).
Proof.
  assert (Hs : Forall (fun c : Z => c <> 0) [79; 75])
    by (repeat constructor; discriminate).
  split; [exact Hs|].
  exact (my_puts_terminated _ recorder [79; 75] [1; 2] [] Hs).
Defined.

End HelloWitness.

(** ** The Mandelbrot iteration: what the count means *)

Section MandelbrotMore.
Import Mandelbrot FP Mirror.

Lemma orbit_i (cx cy : double) (n : nat) :
  Z.of_nat n < 2 ^ 32 -> i (orbit cx cy n) = Z.of_nat n.
Proof.
  induction n as [|n IH]; intros Hn; [reflexivity|].
  cbn [orbit]. rewrite (loop_body_i cx cy (2 ^ 32 - 1)); rewrite ?IH; lia.
Qed.

Lemma loop_first_escape (cx cy : double) (m : Z) (fuel : nat) :
  forall k : nat,
    m < 2 ^ 32 -> Z.of_nat k <= m ->
    (Z.to_nat (m - Z.of_nat k) <= fuel)%nat ->
    (forall j, (j < k)%nat -> inside (orbit cx cy j) = true) ->
    exists r : nat,
      loop fuel cx cy m (orbit cx cy k) = Some (Z.of_nat r) /\
      Z.of_nat r <= m /\
      (forall j, (j < r)%nat -> inside (orbit cx cy j) = true) /\
      (Z.of_nat r < m -> inside (orbit cx cy r) = false).
Proof.
  induction fuel as [|fuel IH]; intros k Hm Hk Hfuel Hin;
    rewrite loop_unfold; unfold loop_test;
    rewrite orbit_i by lia;
    destruct (Z.ltb_spec (Z.of_nat k) m) as [Hlt|Hge]; cbn [andb];
    try (exists k; rewrite ?orbit_i by lia;
         repeat split; [lia | exact Hin | lia]);
    destruct (inside (orbit cx cy k)) eqn:Hk_in;
    try (exists k; rewrite ?orbit_i by lia;
         repeat split; [lia | exact Hin | intros _; exact Hk_in]).
  - lia.
  - change (loop_body cx cy (orbit cx cy k)) with (orbit cx cy (S k)).
    apply IH; try lia.
    intros j Hj. destruct (Nat.eq_dec j k) as [->|Hne];
      [exact Hk_in | apply Hin; lia].
Qed.

(** X1.  The value returned is the number of the first pass at whose start the
    point is no longer inside the disc [zx*zx + zy*zy < 4.0], or
    [maxIters] if that comes first: every earlier point of the orbit is
    inside, and when the value is below [maxIters] the point it names is
    not. *)
Theorem iterate_mandelbrot_first_escape (cx cy : double) (maxIters : Z) :
  Int.unsigned_range maxIters ->
  exists r : nat,
    iterate_mandelbrot cx cy maxIters = Some (Z.of_nat r) /\
    Z.of_nat r <= maxIters /\
    (forall j, (j < r)%nat -> inside (orbit cx cy j) = true) /\
    (Z.of_nat r < maxIters -> inside (orbit cx cy r) = false).
Proof.
  intros [Hlo Hhi]. unfold iterate_mandelbrot.
  change entry with (orbit cx cy 0).
  apply loop_first_escape; cbn [Z.of_nat]; try lia.
Qed.

Lemma iterate_mandelbrot_first_escape_witness :
  Int.unsigned_range 20 /\
  exists r : nat,
    iterate_mandelbrot (D.of_int 1) zero 20 = Some (Z.of_nat r) /\
    Z.of_nat r <= 20 /\
    (forall j, (j < r)%nat -> inside (orbit (D.of_int 1) zero j) = true) /\
    (Z.of_nat r < 20 -> inside (orbit (D.of_int 1) zero r) = false).
Proof.
  assert (H : Int.unsigned_range 20) by (unfold Int.unsigned_range; lia).
  split; [exact H|].
  exact (iterate_mandelbrot_first_escape (D.of_int 1) zero 20 H).
Defined.

(** X2.  The first pass is always taken when the bound allows one: the result is
    0 only for [maxIters = 0]. *)
Theorem iterate_mandelbrot_zero_iff (cx cy : double) (maxIters : Z) :
  Int.unsigned_range maxIters ->
  (iterate_mandelbrot cx cy maxIters = Some 0 <-> maxIters = 0).
Proof.
  intros [Hlo Hhi]. split.
  - intros Hr. destruct (Z.eq_dec maxIters 0) as [|Hne]; [assumption|].
    rewrite loop_first_pass in Hr by lia.
    assert (Hi : i (loop_body cx cy entry) = 1) by reflexivity.
    destruct (loop_enough_fuel cx cy (Nat.pred (Z.to_nat maxIters)) maxIters
                (loop_body cx cy entry)) as (r & Hr' & Hb);
      rewrite ?Hi; try lia.
    rewrite Hr' in Hr. injection Hr as ->. lia.
  - intros ->. unfold iterate_mandelbrot. rewrite loop_unfold. reflexivity.
Qed.

Lemma iterate_mandelbrot_zero_iff_witness :
  Int.unsigned_range 5 /\
  (iterate_mandelbrot S754_nan (D.of_int 3) 5 = Some 0 <-> 5 = 0).
Proof.
  assert (H : Int.unsigned_range 5) by (unfold Int.unsigned_range; lia).
  split; [exact H|].
  exact (iterate_mandelbrot_zero_iff S754_nan (D.of_int 3) 5 H).
Defined.

Lemma add_zero_infinite (c : double) :
  is_infinite c = true -> exists s, D.add zero c = S754_infinity s.
Proof. destruct c as [| s | |]; cbn; try discriminate. now exists s. Qed.

Lemma square_infinite (s : bool) :
  D.mul (S754_infinity s) (S754_infinity s) = S754_infinity false.
Proof. now destruct s. Qed.

Lemma infinite_not_inside (cx cy : double) :
  is_infinite cx || is_infinite cy = true ->
  inside (loop_body cx cy entry) = false.
Proof.
  intros H. rewrite first_pass. unfold inside. cbn [zx zy].
  apply orb_prop in H. destruct H as [H|H];
    destruct (add_zero_infinite _ H) as [s ->]; rewrite square_infinite.
  - now destruct (D.mul (D.add zero cy) (D.add zero cy)) as [| [] | |].
  - now destruct (D.mul (D.add zero cx) (D.add zero cx)) as [| [] | |].
Qed.

(** X3.  An infinite coordinate ends the loop after its first pass: the squared
    magnitude is then infinite or NaN, neither of which is below 4.0. *)
Theorem iterate_mandelbrot_infinite (cx cy : double) (maxIters : Z) :
  is_infinite cx || is_infinite cy = true ->
  Int.unsigned_range maxIters ->
  iterate_mandelbrot cx cy maxIters = Some (Z.min maxIters 1).
Proof.
  intros Hinf [Hlo Hhi].
  destruct (Z.eq_dec maxIters 0) as [->|Hpos].
  - unfold iterate_mandelbrot. rewrite loop_unfold. reflexivity.
  - rewrite loop_first_pass by lia. rewrite loop_unfold.
    unfold loop_test. rewrite (infinite_not_inside _ _ Hinf), andb_false_r.
    rewrite first_pass. cbn [i]. f_equal. lia.
Qed.

Lemma iterate_mandelbrot_infinite_witness :
  is_infinite (S754_infinity true) || is_infinite zero = true /\
  Int.unsigned_range 255 /\
  iterate_mandelbrot (S754_infinity true) zero 255 = Some (Z.min 255 1).
Proof.
  assert (Hi : is_infinite (S754_infinity true) || is_infinite zero = true)
    by reflexivity.
  assert (Hr : Int.unsigned_range 255) by (unfold Int.unsigned_range; lia).
  split; [exact Hi|]. split; [exact Hr|].
  exact (iterate_mandelbrot_infinite (S754_infinity true) zero 255 Hi Hr).
Defined.

End MandelbrotMore.

(** ** The Mandelbrot iteration: symmetry about the real axis *)

Section MandelbrotSymmetry.
Import Mandelbrot FP Mirror.

Lemma mirror_opp (c : double) : mirror c (opp c).
Proof. destruct c; cbn; auto. Qed.

Lemma mirror_zero : mirror zero zero.
Proof. exact I. Qed.

(** Rounding carries the sign through untouched. *)
Lemma binary_round_aux_mirror (s : bool) (m e : Z) (l : location) :
  mirror (binary_round_aux D.prec D.emax s m e l)
         (binary_round_aux D.prec D.emax (negb s) m e l).
Proof.
  unfold binary_round_aux.
  destruct (shr_fexp D.prec D.emax m e l) as [mrs' e'].
  destruct (shr_fexp D.prec D.emax _ e' loc_Exact) as [mrs'' e''].
  destruct (shr_m mrs''); cbn; auto.
  destruct (e'' <=? D.emax - D.prec); cbn; auto.
Qed.

Lemma binary_round_mirror (s : bool) (m : positive) (e : Z) :
  mirror (binary_round D.prec D.emax s m e)
         (binary_round D.prec D.emax (negb s) m e).
Proof.
  unfold binary_round.
  destruct (shl_align m e _) as [mz ez]. apply binary_round_aux_mirror.
Qed.

Lemma binary_normalize_mirror (z e : Z) :
  mirror (binary_normalize D.prec D.emax z e false)
         (binary_normalize D.prec D.emax (- z) e false).
Proof.
  destruct z as [|p|p]; cbn [binary_normalize Z.opp].
  - exact I.
  - apply (binary_round_mirror false).
  - apply (binary_round_mirror true).
Qed.

Lemma cond_Zopp_negb (s : bool) (z : Z) :
  cond_Zopp (negb s) z = - cond_Zopp s z.
Proof. destruct s; cbn [negb cond_Zopp]; lia. Qed.

(** A product with a mirrored factor is mirrored; a square forgets the
    sign altogether. *)
Lemma mul_mirror (t a b : double) :
  mirror a b -> mirror (D.mul t a) (D.mul t b).
Proof.
  destruct a as [sa|sa| |sa ma ea], b as [sb|sb| |sb mb eb];
    cbn [mirror]; try contradiction; intros Hab;
    try (destruct Hab as (-> & -> & ->)); subst;
    destruct t as [st|st| |st mt et]; cbn [D.mul SFmul mirror]; auto;
    try (now destruct st, sa).
  rewrite <- negb_xorb_r. apply binary_round_aux_mirror.
Qed.

Lemma square_mirror (a b : double) :
  mirror a b -> D.mul a a = D.mul b b.
Proof.
  destruct a as [sa|sa| |sa ma ea], b as [sb|sb| |sb mb eb];
    cbn [mirror]; try contradiction; intros Hab;
    try (destruct Hab as (-> & -> & ->)); subst;
    cbn [D.mul SFmul]; try reflexivity.
  - now destruct sa, sb.
  - now destruct sa.
  - now destruct sa.
Qed.

(** A sum of mirrored terms is mirrored. *)
Lemma add_mirror (a b c d : double) :
  mirror a b -> mirror c d -> mirror (D.add a c) (D.add b d).
Proof.
  destruct a as [sa|sa| |sa ma ea], b as [sb|sb| |sb mb eb];
    cbn [mirror]; try contradiction; intros Hab;
    try (destruct Hab as (-> & -> & ->)); subst;
    destruct c as [sc|sc| |sc mc ec], d as [sd|sd| |sd md ed];
    cbn [mirror]; try contradiction; intros Hcd;
    try (destruct Hcd as (-> & -> & ->)); subst;
    cbn [D.add SFadd mirror]; auto;
    try (now destruct sa, sb, sc, sd);
    try (now destruct sa, sc);
    try (now destruct sa);
    try (now destruct sc).
  rewrite !cond_Zopp_negb, <- Z.opp_add_distr.
  apply binary_normalize_mirror.
Qed.

(** One pass keeps [zx] and the counter equal and [zy] mirrored. *)
Lemma loop_body_mirror (cx cy : double) (l l' : locals) :
  zx l' = zx l -> mirror (zy l) (zy l') -> i l' = i l ->
  zx (loop_body cx (opp cy) l') = zx (loop_body cx cy l) /\
  mirror (zy (loop_body cx cy l)) (zy (loop_body cx (opp cy) l')) /\
  i (loop_body cx (opp cy) l') = i (loop_body cx cy l).
Proof.
  intros Hx Hy Hi. cbn [loop_body zx zy i].
  rewrite Hx, Hi, (square_mirror _ _ Hy).
  repeat split. apply add_mirror; [apply mul_mirror, Hy | apply mirror_opp].
Qed.

Lemma inside_mirror (l l' : locals) :
  zx l' = zx l -> mirror (zy l) (zy l') -> inside l' = inside l.
Proof.
  intros Hx Hy. unfold inside. now rewrite Hx, (square_mirror _ _ Hy).
Qed.

Lemma loop_mirror (cx cy : double) (m : Z) (fuel : nat) :
  forall l l',
    zx l' = zx l -> mirror (zy l) (zy l') -> i l' = i l ->
    loop fuel cx (opp cy) m l' = loop fuel cx cy m l.
Proof.
  induction fuel as [|fuel IH]; intros l l' Hx Hy Hi;
    rewrite (loop_unfold cx (opp cy) _ m l'), (loop_unfold cx cy _ m l);
    unfold loop_test; rewrite Hi, (inside_mirror l l' Hx Hy);
    destruct ((i l <? m) && inside l); try reflexivity.
  destruct (loop_body_mirror cx cy l l' Hx Hy Hi) as (Hx' & Hy' & Hi').
  now apply IH.
Qed.

(** X4.  A point and its complex conjugate get the same count, for every bound
    and every pair of doubles, NaN, infinities and signed zeros included. *)
Theorem iterate_mandelbrot_conjugate (cx cy : double) (maxIters : Z) :
  iterate_mandelbrot cx (opp cy) maxIters = iterate_mandelbrot cx cy maxIters.
Proof.
  unfold iterate_mandelbrot.
  apply loop_mirror; [reflexivity | apply mirror_zero | reflexivity].
Qed.

End MandelbrotSymmetry.

(** ** Integers in floating point: conversion and addition are exact *)

Section ExactIntegers.
Import Exact.
Variables prec emax : Z.
Hypothesis Hformat : 1 < prec <= emax.

Lemma iter_pos_comm {A : Type} (f : A -> A) (p : positive) :
  forall x, SpecFloat.iter_pos f p (f x) = f (SpecFloat.iter_pos f p x).
Proof.
  induction p as [p IH|p IH|]; intros x; cbn [SpecFloat.iter_pos];
    now rewrite ?IH.
Qed.

Lemma iter_pos_succ {A : Type} (f : A -> A) (p : positive) :
  forall x, SpecFloat.iter_pos f (Pos.succ p) x = f (SpecFloat.iter_pos f p x).
Proof.
  induction p as [p IH|p IH|]; intros x.
  - change (Pos.succ p~1) with (Pos.succ p)~0%positive.
    cbn [SpecFloat.iter_pos]. now rewrite !IH, !iter_pos_comm.
  - change (Pos.succ p~0) with p~1%positive.
    cbn [SpecFloat.iter_pos]. now rewrite !iter_pos_comm.
  - reflexivity.
Qed.

(** Shifting right what was shifted left loses nothing. *)
Lemma shr_iter_xO (q : positive) :
  forall M : positive,
    SpecFloat.iter_pos shr_1 q
      {| shr_m := Z.pos (Pos.iter xO M q); shr_r := false; shr_s := false |}
    = {| shr_m := Z.pos M; shr_r := false; shr_s := false |}.
Proof.
  induction q as [|q IH] using Pos.peano_ind; intros M; [reflexivity|].
  rewrite iter_pos_succ, Pos.iter_succ, <- Pos.iter_swap, IH.
  reflexivity.
Qed.

Lemma shifted_positive (P M : positive) (q : positive) :
  Z.pos P = Z.pos M * 2 ^ Z.pos q -> P = Pos.iter xO M q.
Proof.
  intros HP. apply Pos2Z.inj. now rewrite iter_xO_value.
Qed.

Lemma fexp_full (e : Z) :
  3 - emax - prec <= e -> fexp prec emax (prec + e) = e.
Proof. intros He. unfold fexp, emin. lia. Qed.

Lemma shr_fexp_noshift (M : positive) (e : Z) :
  Z.pos (digits2_pos M) = prec -> 3 - emax - prec <= e ->
  shr_fexp prec emax (Z.pos M) e loc_Exact =
  ({| shr_m := Z.pos M; shr_r := false; shr_s := false |}, e).
Proof.
  intros Hd He. unfold shr_fexp, Zdigits2. rewrite Hd, fexp_full by exact He.
  rewrite Z.sub_diag. reflexivity.
Qed.

(** A mantissa that is a full-width one shifted left by [q] rounds to the
    full-width one, exactly. *)
Lemma binary_round_aux_shifted (s : bool) (P M : positive) (E q : Z) :
  0 <= q -> Z.pos P = Z.pos M * 2 ^ q ->
  Z.pos (digits2_pos M) = prec ->
  3 - emax - prec <= E + q <= emax - prec ->
  binary_round_aux prec emax s (Z.pos P) E loc_Exact = S754_finite s M (E + q).
Proof.
  intros Hq HP Hd He.
  assert (Hshr : shr_fexp prec emax (Z.pos P) E loc_Exact =
                 ({| shr_m := Z.pos M; shr_r := false; shr_s := false |},
                  E + q)).
  { destruct q as [|q|q]; [| |lia].
    - rewrite Z.pow_0_r, Z.mul_1_r in HP. apply Pos2Z.inj in HP. subst P.
      rewrite Z.add_0_r in *. apply shr_fexp_noshift; [exact Hd | lia].
    - apply shifted_positive in HP. subst P.
      unfold shr_fexp, Zdigits2. rewrite iter_xO_digits, Hd.
      replace (prec + Z.pos q + E) with (prec + (E + Z.pos q)) by lia.
      rewrite fexp_full by lia.
      replace (E + Z.pos q - E) with (Z.pos q) by lia.
      cbn [shr_record_of_loc shr]. now rewrite shr_iter_xO. }
  unfold binary_round_aux. rewrite Hshr.
  cbn [shr_m loc_of_shr_record round_nearest_even].
  rewrite shr_fexp_noshift by (exact Hd || lia). cbn [shr_m].
  destruct (Z.leb_spec (E + q) (emax - prec)); [reflexivity | lia].
Qed.

Lemma shl_align_ge (p : positive) (e e' : Z) :
  e <= e' -> shl_align p e e' = (p, e).
Proof.
  intros Hle. unfold shl_align. destruct (e' - e) eqn:Hd; try reflexivity. lia.
Qed.

Lemma normal_mantissa_value (n : positive) :
  Z.pos n < 2 ^ prec ->
  Z.pos (normal_mantissa prec n)
  = Z.pos n * 2 ^ (prec - Z.pos (digits2_pos n)).
Proof.
  intros Hn. unfold normal_mantissa. apply Z2Pos.id.
  pose proof (digits_bound n prec ltac:(lia) Hn).
  apply Z.mul_pos_pos; [lia | apply Z.pow_pos_nonneg; lia].
Qed.

Lemma shifted_digits (P M : positive) (q : Z) :
  0 <= q -> Z.pos P = Z.pos M * 2 ^ q ->
  Z.pos (digits2_pos P) = Z.pos (digits2_pos M) + q.
Proof.
  intros Hq HP. destruct q as [|q|q]; [| |lia].
  - rewrite Z.pow_0_r, Z.mul_1_r in HP. apply Pos2Z.inj in HP. subst. lia.
  - apply shifted_positive in HP. subst. apply iter_xO_digits.
Qed.

Lemma normal_mantissa_digits (n : positive) :
  Z.pos n < 2 ^ prec ->
  Z.pos (digits2_pos (normal_mantissa prec n)) = prec.
Proof.
  intros Hn. pose proof (digits_bound n prec ltac:(lia) Hn).
  rewrite (shifted_digits _ n (prec - Z.pos (digits2_pos n)));
    [lia | lia | now apply normal_mantissa_value].
Qed.

(** Rounding [n * 2^k] given at exponent [-k] yields the normal form of
    [n], whatever [k]. *)
Lemma binary_round_scaled (s : bool) (n p : positive) (k : Z) :
  0 <= k -> Z.pos p = Z.pos n * 2 ^ k -> Z.pos n < 2 ^ prec ->
  binary_round prec emax s p (- k)
  = S754_finite s (normal_mantissa prec n) (normal_exponent prec n).
Proof.
  intros Hk Hp Hn. unfold binary_round, normal_exponent.
  pose proof (digits_bound n prec ltac:(lia) Hn) as Hd.
  pose proof (Pos2Z.is_pos (digits2_pos n)) as Hd0.
  pose proof (normal_mantissa_value n Hn) as HM.
  pose proof (normal_mantissa_digits n Hn) as HMd.
  rewrite (shifted_digits p n k Hk Hp).
  replace (Z.pos (digits2_pos n) + k + - k)
    with (prec + (Z.pos (digits2_pos n) - prec)) by lia.
  rewrite fexp_full by lia.
  set (e' := Z.pos (digits2_pos n) - prec) in *.
  destruct (Z.le_gt_cases e' (- k)) as [Hle|Hgt].
  - destruct (shl_align_le p (- k) e' Hle) as (m & -> & Hm & _).
    rewrite (binary_round_aux_shifted s m (normal_mantissa prec n) e' 0);
      [f_equal; lia | lia | | exact HMd | lia].
    rewrite Z.pow_0_r, Z.mul_1_r, Hm, Hp, HM, <- Z.mul_assoc.
    rewrite <- Z.pow_add_r by lia. do 2 f_equal. lia.
  - rewrite shl_align_ge by lia.
    rewrite (binary_round_aux_shifted s p (normal_mantissa prec n)
               (- k) (e' + k));
      [f_equal; lia | lia | | exact HMd | lia].
    rewrite Hp, HM, <- Z.mul_assoc, <- Z.pow_add_r by lia.
    do 2 f_equal. lia.
Qed.

(** The conversion of a positive integer below [2^prec]. *)
Lemma binary_normalize_pos (n : positive) :
  Z.pos n < 2 ^ prec ->
  binary_normalize prec emax (Z.pos n) 0 false
  = S754_finite false (normal_mantissa prec n) (normal_exponent prec n).
Proof.
  intros Hn. cbn [binary_normalize].
  apply (binary_round_scaled false n n 0); [lia | | exact Hn].
  now rewrite Z.pow_0_r, Z.mul_1_r.
Qed.

Lemma normal_exponent_range (n : positive) :
  Z.pos n < 2 ^ prec -> - prec < normal_exponent prec n <= 0.
Proof.
  intros Hn. unfold normal_exponent.
  pose proof (digits_bound n prec ltac:(lia) Hn).
  pose proof (Pos2Z.is_pos (digits2_pos n)). lia.
Qed.

(** The conversion is exact below [2^prec]. *)
Lemma binary_normalize_exact (z : Z) :
  0 <= z < 2 ^ prec ->
  FP.exactly (binary_normalize prec emax z 0 false) z.
Proof.
  intros [Hlo Hhi]. destruct z as [|n|n]; [reflexivity | | lia].
  rewrite binary_normalize_pos by exact Hhi. unfold FP.exactly. cbv zeta.
  pose proof (normal_exponent_range n Hhi) as He.
  pose proof (normal_mantissa_value n Hhi) as HM.
  destruct (Z.leb_spec 0 (normal_exponent prec n)) as [Hz|Hz];
    rewrite HM; unfold normal_exponent in *.
  - replace (prec - Z.pos (digits2_pos n)) with 0 by lia.
    replace (Z.pos (digits2_pos n) - prec) with 0 by lia.
    rewrite !Z.pow_0_r. lia.
  - do 2 f_equal. lia.
Qed.

(** The sum of two converted integers is the converted sum, as long as the
    sum stays below [2^prec]: nothing is rounded. *)
Lemma add_converted (a b : Z) :
  0 <= a -> 0 <= b -> a + b < 2 ^ prec ->
  SFadd prec emax (binary_normalize prec emax a 0 false)
                  (binary_normalize prec emax b 0 false)
  = binary_normalize prec emax (a + b) 0 false.
Proof.
  intros Ha Hb Hab.
  destruct a as [|a|a]; [| |lia]; destruct b as [|b|b]; try lia.
  - reflexivity.
  - change (0 + Z.pos b) with (Z.pos b) in *.
    rewrite !binary_normalize_pos by lia. reflexivity.
  - rewrite Z.add_0_r in *. rewrite !binary_normalize_pos by lia.
    reflexivity.
  - change (Z.pos a + Z.pos b) with (Z.pos (a + b)) in *.
    rewrite !binary_normalize_pos by lia.
    pose proof (normal_exponent_range a ltac:(lia)) as Hea.
    pose proof (normal_exponent_range b ltac:(lia)) as Heb.
    pose proof (normal_mantissa_value a ltac:(lia)) as Hma.
    pose proof (normal_mantissa_value b ltac:(lia)) as Hmb.
    fold (normal_exponent prec a) in Hma. fold (normal_exponent prec b) in Hmb.
    cbn [SFadd].
    set (ez := Z.min (normal_exponent prec a) (normal_exponent prec b)).
    destruct (shl_align_le (normal_mantissa prec a) (normal_exponent prec a)
                ez ltac:(lia)) as (ma & -> & Hma' & _).
    destruct (shl_align_le (normal_mantissa prec b) (normal_exponent prec b)
                ez ltac:(lia)) as (mb & -> & Hmb' & _).
    cbn [fst cond_Zopp].
    change (Z.pos ma + Z.pos mb) with (Z.pos (ma + mb)).
    cbn [binary_normalize].
    assert (Hval : Z.pos (ma + mb) = Z.pos (a + b) * 2 ^ (- ez)).
    { rewrite Pos2Z.inj_add, Hma', Hmb', Hma, Hmb.
      unfold normal_exponent in *.
      rewrite <- !Z.mul_assoc, <- !Z.pow_add_r by lia.
      rewrite Pos2Z.inj_add, Z.mul_add_distr_r. f_equal; do 2 f_equal; lia. }
    pose proof (binary_round_scaled false (a + b) (ma + mb) (- ez)
                  ltac:(lia) Hval Hab) as Hr.
    rewrite Z.opp_involutive in Hr. exact Hr.
Qed.

End ExactIntegers.

(** ** Narrowing to a signed word *)

Section SignedWords.

Variable bits : Z.
Hypothesis Hbits : 0 < bits.

Lemma pow2_split : 2 ^ bits = 2 * 2 ^ (bits - 1).
Proof.
  replace bits with (Z.succ (bits - 1)) at 1 by lia.
  apply Z.pow_succ_r. lia.
Qed.

Lemma wrap_signed_range (z : Z) :
  - 2 ^ (bits - 1) <= Int.wrap_signed bits z < 2 ^ (bits - 1).
Proof.
  unfold Int.wrap_signed.
  assert (0 < 2 ^ (bits - 1)) by (apply Z.pow_pos_nonneg; lia).
  pose proof (Z.mod_pos_bound (z + 2 ^ (bits - 1)) (2 ^ bits)) as Hm.
  rewrite pow2_split in *. lia.
Qed.

Lemma wrap_signed_small (z : Z) :
  - 2 ^ (bits - 1) <= z < 2 ^ (bits - 1) -> Int.wrap_signed bits z = z.
Proof.
  intros Hz. unfold Int.wrap_signed.
  rewrite Z.mod_small; [lia | rewrite pow2_split; lia].
Qed.

Lemma wrap_signed_add (z i : Z) :
  Int.wrap_signed bits (Int.wrap_signed bits z + i)
  = Int.wrap_signed bits (z + i).
Proof.
  unfold Int.wrap_signed. f_equal.
  replace ((z + 2 ^ (bits - 1)) mod 2 ^ bits - 2 ^ (bits - 1) + i
           + 2 ^ (bits - 1))
    with ((z + 2 ^ (bits - 1)) mod 2 ^ bits + i) by lia.
  rewrite Zplus_mod_idemp_l. f_equal. lia.
Qed.

End SignedWords.

(** ** Checked loops over one array *)

Section CheckedLoop.
Import Memory Checked.
Context {A : Type}.
Variable get : memory -> list A.
Variable set : (list A -> list A) -> memory -> memory.
Variable f : Z -> A -> A.
Hypothesis get_set : forall g m, get (set g m) = g (get m).

Lemma for_lt_checked_succ {S : Type} (n : nat) (body : Z -> S -> option S)
    (s : S) :
  for_lt_checked (Z.of_nat (Datatypes.S n)) body s =
  match for_lt_checked (Z.of_nat n) body s with
  | Some s' => body (Z.of_nat n) s'
  | None => None
  end.
Proof.
  unfold for_lt_checked. rewrite seqZ_S, foldl_app. reflexivity.
Qed.

Lemma unchecked_length (n : nat) (m : memory) :
  length (get (for_lt (Z.of_nat n)
                 (fun i => set (alter (f i) (Z.to_nat i))) m))
  = length (get m).
Proof.
  induction n as [|n IH]; [reflexivity|].
  rewrite for_lt_succ, get_set, length_alter. exact IH.
Qed.

(** While the bound does not exceed the array no pass fails, and the loop
    does what the unchecked loop does. *)
Lemma checked_within (n : nat) (m : memory) :
  (n <= length (get m))%nat ->
  for_lt_checked (Z.of_nat n) (update get set f) m =
  Some (for_lt (Z.of_nat n) (fun i => set (alter (f i) (Z.to_nat i))) m).
Proof.
  induction n as [|n IH]; intros Hn; [reflexivity|].
  rewrite for_lt_checked_succ, IH, for_lt_succ by lia.
  unfold update. rewrite unchecked_length.
  destruct (Z.leb_spec 0 (Z.of_nat n)); [|lia].
  destruct (Z.ltb_spec (Z.of_nat n) (Z.of_nat (length (get m)))); [|lia].
  reflexivity.
Qed.

(** A bound beyond the array makes the pass at the first index past the
    array fail. *)
Lemma checked_beyond (n : nat) (m : memory) :
  (length (get m) < n)%nat ->
  for_lt_checked (Z.of_nat n) (update get set f) m = None.
Proof.
  induction n as [|n IH]; intros Hn; [lia|].
  rewrite for_lt_checked_succ.
  destruct (le_lt_dec n (length (get m))) as [Hle|Hlt].
  - rewrite checked_within by exact Hle. unfold update.
    rewrite unchecked_length.
    destruct (Z.ltb_spec (Z.of_nat n) (Z.of_nat (length (get m)))); [lia|].
    now rewrite andb_false_r.
  - now rewrite IH.
Qed.

End CheckedLoop.

(** ** The scans of memory.c, element by element and call after call *)

Section MemoryMore.
Import Memory FP.

#[local] Opaque ITEMS.

Ltac lookup_scan scan :=
  let Hi := fresh "Hi" in
  intros Hi; rewrite scan;
  cbn [with_i16 with_i32 with_i64 with_f32
       buffer_i16 buffer_i32 buffer_i64 buffer_f32];
  rewrite scan_lookup by apply ITEMS_nonneg; rewrite Z2Nat.id by lia;
  match goal with
  | |- context [?a <? ITEMS] =>
      destruct (Z.ltb_spec a ITEMS); [reflexivity | lia]
  end.

Lemma process_i16_lookup (m : memory) (i : Z) :
  0 <= i < ITEMS ->
  buffer_i16 (process_i16 m) !! Z.to_nat i =
  add_i16 i <$> buffer_i16 m !! Z.to_nat i.
Proof. lookup_scan process_i16_scan. Qed.

Lemma process_i32_lookup (m : memory) (i : Z) :
  0 <= i < ITEMS ->
  buffer_i32 (process_i32 m) !! Z.to_nat i =
  add_i32 i <$> buffer_i32 m !! Z.to_nat i.
Proof. lookup_scan process_i32_scan. Qed.

Lemma process_i64_lookup (m : memory) (i : Z) :
  0 <= i < ITEMS ->
  buffer_i64 (process_i64 m) !! Z.to_nat i =
  add_i64 i <$> buffer_i64 m !! Z.to_nat i.
Proof. lookup_scan process_i64_scan. Qed.

Lemma process_f32_lookup (m : memory) (i : Z) :
  0 <= i < ITEMS ->
  buffer_f32 (process_f32 m) !! Z.to_nat i =
  add_f32 i <$> buffer_f32 m !! Z.to_nat i.
Proof. lookup_scan process_f32_scan. Qed.

(** X5.  Every routine adds to the element at each index that index, once, in
    the element's type, whatever the arrays hold beforehand. *)
Theorem process_elementwise (m : memory) (i : Z) :
  0 <= i < ITEMS ->
  buffer_i8 (process_i8 m) !! Z.to_nat i
  = (fun x => Int.to_char (Int.to_int (x + i))) <$> buffer_i8 m !! Z.to_nat i /\
  buffer_i16 (process_i16 m) !! Z.to_nat i
  = (fun x => Int.to_short (Int.to_int (x + i))) <$> buffer_i16 m !! Z.to_nat i /\
  buffer_i32 (process_i32 m) !! Z.to_nat i
  = (fun x => Int.to_int (x + i)) <$> buffer_i32 m !! Z.to_nat i /\
  buffer_i64 (process_i64 m) !! Z.to_nat i
  = (fun x => Int.to_long_long (x + i)) <$> buffer_i64 m !! Z.to_nat i /\
  buffer_f32 (process_f32 m) !! Z.to_nat i
  = (fun x => F.add x (F.of_int i)) <$> buffer_f32 m !! Z.to_nat i /\
  buffer_f64 (process_f64 m) !! Z.to_nat i
  = (fun x => D.add x (D.of_int i)) <$> buffer_f64 m !! Z.to_nat i.
Proof.
  intros Hi.
  split; [exact (process_i8_lookup m i Hi)|].
  split; [exact (process_i16_lookup m i Hi)|].
  split; [exact (process_i32_lookup m i Hi)|].
  split; [exact (process_i64_lookup m i Hi)|].
  split; [exact (process_f32_lookup m i Hi) | exact (process_f64_lookup m i Hi)].
Qed.

Lemma process_elementwise_witness :
  0 <= 5 < ITEMS /\
  buffer_i32 (process_i32 zeroed) !! Z.to_nat 5
  = (fun x => Int.to_int (x + 5)) <$> buffer_i32 zeroed !! Z.to_nat 5.
Proof.
  assert (Hi : 0 <= 5 < ITEMS) by (rewrite ITEMS_value; lia).
  split; [exact Hi|].
  exact (proj1 (proj2 (proj2 (process_elementwise zeroed 5 Hi)))).
Defined.

Lemma zeroed_lookup (i : Z) :
  0 <= i < ITEMS ->
  buffer_i8 zeroed !! Z.to_nat i = Some 0 /\
  buffer_i16 zeroed !! Z.to_nat i = Some 0 /\
  buffer_i32 zeroed !! Z.to_nat i = Some 0 /\
  buffer_i64 zeroed !! Z.to_nat i = Some 0 /\
  buffer_f32 zeroed !! Z.to_nat i = Some (F.of_int 0) /\
  buffer_f64 zeroed !! Z.to_nat i = Some (D.of_int 0).
Proof.
  intros Hi. unfold zeroed.
  cbn [buffer_i8 buffer_i16 buffer_i32 buffer_i64 buffer_f32 buffer_f64].
  repeat split; apply lookup_replicate_2; lia.
Qed.

Lemma iter_zero {A : Type} (f : A -> A) (x : A) : Nat.iter 0 f x = x.
Proof. reflexivity. Qed.

Lemma iter_succ {A : Type} (f : A -> A) (n : nat) (x : A) :
  Nat.iter (S n) f x = f (Nat.iter n f x).
Proof. reflexivity. Qed.

Lemma iter_one {A : Type} (f : A -> A) (x : A) : Nat.iter 1 f x = f x.
Proof. reflexivity. Qed.

(** The integer updates, on a value that is already in its type. *)
Lemma add_i8_wrapped (i z : Z) :
  0 <= i < ITEMS -> add_i8 i (Int.to_char z) = Int.to_char (z + i).
Proof.
  intros Hi. unfold add_i8, Int.to_int, Int.to_char.
  pose proof (wrap_signed_range 8 ltac:(lia) z) as Hr.
  rewrite ITEMS_value in Hi.
  rewrite (wrap_signed_small 32) by (cbn in Hr |- *; lia).
  apply wrap_signed_add.
Qed.

Lemma add_i16_wrapped (i z : Z) :
  0 <= i < ITEMS -> add_i16 i (Int.to_short z) = Int.to_short (z + i).
Proof.
  intros Hi. unfold add_i16, Int.to_int, Int.to_short.
  pose proof (wrap_signed_range 16 ltac:(lia) z) as Hr.
  rewrite ITEMS_value in Hi.
  rewrite (wrap_signed_small 32) by (cbn in Hr |- *; lia).
  apply wrap_signed_add.
Qed.

Lemma add_i32_wrapped (i z : Z) :
  add_i32 i (Int.to_int z) = Int.to_int (z + i).
Proof. apply wrap_signed_add. Qed.

Lemma add_i64_wrapped (i z : Z) :
  add_i64 i (Int.to_long_long z) = Int.to_long_long (z + i).
Proof. apply wrap_signed_add. Qed.

Lemma repeated_ints (n : nat) (i : Z) :
  0 <= i < ITEMS ->
  buffer_i8 (Nat.iter n process_i8 zeroed) !! Z.to_nat i
  = Some (Int.to_char (Z.of_nat n * i)) /\
  buffer_i16 (Nat.iter n process_i16 zeroed) !! Z.to_nat i
  = Some (Int.to_short (Z.of_nat n * i)) /\
  buffer_i32 (Nat.iter n process_i32 zeroed) !! Z.to_nat i
  = Some (Int.to_int (Z.of_nat n * i)) /\
  buffer_i64 (Nat.iter n process_i64 zeroed) !! Z.to_nat i
  = Some (Int.to_long_long (Z.of_nat n * i)).
Proof.
  intros Hi. induction n as [|n (IH8 & IH16 & IH32 & IH64)].
  - destruct (zeroed_lookup i Hi) as (H8 & H16 & H32 & H64 & _).
    change (Z.of_nat 0 * i) with 0.
    rewrite (iter_zero process_i8), (iter_zero process_i16),
      (iter_zero process_i32), (iter_zero process_i64).
    split; [exact H8|]. split; [exact H16|]. split; [exact H32 | exact H64].
  - replace (Z.of_nat (S n) * i) with (Z.of_nat n * i + i) by lia.
    split; [|split; [|split]].
    + rewrite (iter_succ process_i8), (process_i8_lookup (Nat.iter n process_i8 zeroed) i Hi), IH8.
      cbn [fmap option_fmap option_map].
      now rewrite add_i8_wrapped by exact Hi.
    + rewrite (iter_succ process_i16), (process_i16_lookup (Nat.iter n process_i16 zeroed) i Hi), IH16.
      cbn [fmap option_fmap option_map].
      now rewrite add_i16_wrapped by exact Hi.
    + rewrite (iter_succ process_i32), (process_i32_lookup (Nat.iter n process_i32 zeroed) i Hi), IH32.
      cbn [fmap option_fmap option_map]. now rewrite add_i32_wrapped.
    + rewrite (iter_succ process_i64), (process_i64_lookup (Nat.iter n process_i64 zeroed) i Hi), IH64.
      cbn [fmap option_fmap option_map]. now rewrite add_i64_wrapped.
Qed.

(** X6.  Called [n] times on zeroed memory, an integer routine leaves at index
    [i] the product [n * i] narrowed to the element type: overflow wraps
    around and the calls add up modulo the type's range. *)
Theorem process_int_repeated (n : nat) (i : Z) :
  0 <= i < ITEMS ->
  buffer_i8 (Nat.iter n process_i8 zeroed) !! Z.to_nat i
  = Some (Int.wrap_signed 8 (Z.of_nat n * i)) /\
  buffer_i16 (Nat.iter n process_i16 zeroed) !! Z.to_nat i
  = Some (Int.wrap_signed 16 (Z.of_nat n * i)) /\
  buffer_i32 (Nat.iter n process_i32 zeroed) !! Z.to_nat i
  = Some (Int.wrap_signed 32 (Z.of_nat n * i)) /\
  buffer_i64 (Nat.iter n process_i64 zeroed) !! Z.to_nat i
  = Some (Int.wrap_signed 64 (Z.of_nat n * i)).
Proof. intros Hi. exact (repeated_ints n i Hi). Qed.

Lemma process_int_repeated_witness :
  0 <= 70000 < ITEMS /\
  buffer_i16 (Nat.iter 3 process_i16 zeroed) !! Z.to_nat 70000
  = Some (Int.wrap_signed 16 (Z.of_nat 3 * 70000)).
Proof.
  assert (Hi : 0 <= 70000 < ITEMS) by (rewrite ITEMS_value; lia).
  split; [exact Hi|].
  exact (proj1 (proj2 (process_int_repeated 3 70000 Hi))).
Defined.

(** X7.  As long as [n * i] fits the element type nothing wraps and the element
    is [n * i] itself; a single call never wraps a 32-bit or a 64-bit
    element, and wraps a 16-bit one from index 32768 on, an 8-bit one from
    index 128 on. *)
Theorem process_int_no_overflow (n : nat) (i : Z) :
  0 <= i < ITEMS ->
  (Z.of_nat n * i < 2 ^ 7 ->
   buffer_i8 (Nat.iter n process_i8 zeroed) !! Z.to_nat i
   = Some (Z.of_nat n * i)) /\
  (Z.of_nat n * i < 2 ^ 15 ->
   buffer_i16 (Nat.iter n process_i16 zeroed) !! Z.to_nat i
   = Some (Z.of_nat n * i)) /\
  (Z.of_nat n * i < 2 ^ 31 ->
   buffer_i32 (Nat.iter n process_i32 zeroed) !! Z.to_nat i
   = Some (Z.of_nat n * i)) /\
  (Z.of_nat n * i < 2 ^ 63 ->
   buffer_i64 (Nat.iter n process_i64 zeroed) !! Z.to_nat i
   = Some (Z.of_nat n * i)) /\
  buffer_i32 (process_i32 zeroed) !! Z.to_nat i = Some i /\
  buffer_i64 (process_i64 zeroed) !! Z.to_nat i = Some i /\
  (2 ^ 15 <= i < 2 ^ 16 ->
   buffer_i16 (process_i16 zeroed) !! Z.to_nat i = Some (i - 2 ^ 16)) /\
  (2 ^ 7 <= i < 2 ^ 8 ->
   buffer_i8 (process_i8 zeroed) !! Z.to_nat i = Some (i - 2 ^ 8)).
Proof.
  intros Hi.
  destruct (repeated_ints n i Hi) as (H8 & H16 & H32 & H64).
  destruct (repeated_ints 1 i Hi) as (H8' & H16' & H32' & H64').
  rewrite (iter_one process_i8) in H8'. rewrite (iter_one process_i16) in H16'.
  rewrite (iter_one process_i32) in H32'. rewrite (iter_one process_i64) in H64'.
  replace (Z.of_nat 1 * i) with i in H8', H16', H32', H64' by lia.
  assert (Hn : 0 <= Z.of_nat n * i) by (apply Z.mul_nonneg_nonneg; lia).
  pose proof ITEMS_value as HI.
  unfold Int.to_char in H8, H8'. unfold Int.to_short in H16, H16'.
  unfold Int.to_int in H32, H32'. unfold Int.to_long_long in H64, H64'.
  repeat match goal with |- _ /\ _ => split end; try intros Hb.
  - now rewrite H8, wrap_signed_small by (cbn; lia).
  - now rewrite H16, wrap_signed_small by (cbn; lia).
  - now rewrite H32, wrap_signed_small by (cbn; lia).
  - now rewrite H64, wrap_signed_small by (cbn; lia).
  - now rewrite H32', wrap_signed_small by (cbn; lia).
  - now rewrite H64', wrap_signed_small by (cbn; lia).
  - rewrite H16'. f_equal.
    rewrite <- (wrap_signed_small 16 ltac:(lia) (i - 2 ^ 16)) by (cbn; lia).
    unfold Int.wrap_signed. f_equal.
    replace (i + 2 ^ (16 - 1)) with (i - 2 ^ 16 + 2 ^ (16 - 1) + 1 * 2 ^ 16)
      by lia.
    now rewrite Z_mod_plus_full.
  - rewrite H8'. f_equal.
    rewrite <- (wrap_signed_small 8 ltac:(lia) (i - 2 ^ 8)) by (cbn; lia).
    unfold Int.wrap_signed. f_equal.
    replace (i + 2 ^ (8 - 1)) with (i - 2 ^ 8 + 2 ^ (8 - 1) + 1 * 2 ^ 8)
      by lia.
    now rewrite Z_mod_plus_full.
Qed.

Lemma process_int_no_overflow_witness :
  0 <= 1048575 < ITEMS /\
  buffer_i32 (process_i32 zeroed) !! Z.to_nat 1048575 = Some 1048575.
Proof.
  assert (Hi : 0 <= 1048575 < ITEMS) by (rewrite ITEMS_value; lia).
  split; [exact Hi|].
  exact (proj1 (proj2 (proj2 (proj2 (proj2
           (process_int_no_overflow 1 1048575 Hi)))))).
Defined.

Lemma double_format : 1 < D.prec <= D.emax.
Proof. unfold D.prec, D.emax. lia. Qed.

Lemma float_format : 1 < F.prec <= F.emax.
Proof. unfold F.prec, F.emax. lia. Qed.

Lemma repeated_f64 (n : nat) (i : Z) :
  0 <= i < ITEMS -> Z.of_nat n * i < 2 ^ 53 ->
  buffer_f64 (Nat.iter n process_f64 zeroed) !! Z.to_nat i
  = Some (D.of_int (Z.of_nat n * i)).
Proof.
  intros Hi. induction n as [|n IH]; intros Hn.
  - rewrite (iter_zero process_f64). change (Z.of_nat 0 * i) with 0.
    exact (proj2 (proj2 (proj2 (proj2 (proj2 (zeroed_lookup i Hi)))))).
  - assert (Hn' : 0 <= Z.of_nat n * i) by (apply Z.mul_nonneg_nonneg; lia).
    rewrite (iter_succ process_f64), (process_f64_lookup (Nat.iter n process_f64 zeroed) i Hi), IH by lia.
    cbn [fmap option_fmap option_map]. f_equal.
    replace (Z.of_nat (S n) * i) with (Z.of_nat n * i + i) by lia.
    unfold add_f64, D.add, D.of_int.
    apply (add_converted D.prec D.emax double_format); unfold D.prec; lia.
Qed.

Lemma repeated_f32 (n : nat) (i : Z) :
  0 <= i < ITEMS -> Z.of_nat n * i < 2 ^ 24 ->
  buffer_f32 (Nat.iter n process_f32 zeroed) !! Z.to_nat i
  = Some (F.of_int (Z.of_nat n * i)).
Proof.
  intros Hi. induction n as [|n IH]; intros Hn.
  - rewrite (iter_zero process_f32). change (Z.of_nat 0 * i) with 0.
    exact (proj1 (proj2 (proj2 (proj2 (proj2 (zeroed_lookup i Hi)))))).
  - assert (Hn' : 0 <= Z.of_nat n * i) by (apply Z.mul_nonneg_nonneg; lia).
    rewrite (iter_succ process_f32), (process_f32_lookup (Nat.iter n process_f32 zeroed) i Hi), IH by lia.
    cbn [fmap option_fmap option_map]. f_equal.
    replace (Z.of_nat (S n) * i) with (Z.of_nat n * i + i) by lia.
    unfold add_f32, F.add, F.of_int.
    apply (add_converted F.prec F.emax float_format); unfold F.prec; lia.
Qed.

(** X8.  Called [n] times on zeroed memory, a floating-point routine leaves at
    index [i] the product [n * i] itself, with no rounding anywhere on the
    way, as long as the product is below [2^53] for [double] and below
    [2^24] for [float]. *)
Theorem process_float_repeated (n : nat) (i : Z) :
  0 <= i < ITEMS ->
  (Z.of_nat n * i < 2 ^ 53 ->
   buffer_f64 (Nat.iter n process_f64 zeroed) !! Z.to_nat i
   = Some (D.of_int (Z.of_nat n * i)) /\
   exactly (D.of_int (Z.of_nat n * i)) (Z.of_nat n * i)) /\
  (Z.of_nat n * i < 2 ^ 24 ->
   buffer_f32 (Nat.iter n process_f32 zeroed) !! Z.to_nat i
   = Some (F.of_int (Z.of_nat n * i)) /\
   exactly (F.of_int (Z.of_nat n * i)) (Z.of_nat n * i)).
Proof.
  intros Hi.
  assert (Hn : 0 <= Z.of_nat n * i) by (apply Z.mul_nonneg_nonneg; lia).
  split; intros Hb.
  - split; [exact (repeated_f64 n i Hi Hb)|].
    apply (binary_normalize_exact D.prec D.emax double_format).
    unfold D.prec. lia.
  - split; [exact (repeated_f32 n i Hi Hb)|].
    apply (binary_normalize_exact F.prec F.emax float_format).
    unfold F.prec. lia.
Qed.

Lemma process_float_repeated_witness :
  0 <= 1048575 < ITEMS /\
  buffer_f32 (Nat.iter 16 process_f32 zeroed) !! Z.to_nat 1048575
  = Some (F.of_int (Z.of_nat 16 * 1048575)).
Proof.
  assert (Hi : 0 <= 1048575 < ITEMS) by (rewrite ITEMS_value; lia).
  assert (Hb : Z.of_nat 16 * 1048575 < 2 ^ 24) by (cbn; lia).
  split; [exact Hi|].
  exact (proj1 (proj2 (process_float_repeated 16 1048575 Hi) Hb)).
Defined.

(** Replacing each routine of the goal by its scan. *)
Ltac unroll proc scan m :=
  let E := fresh "E" in
  pose proof (scan m) as E; revert E; generalize (proc m); intros ? ->.

Ltac unroll_scans :=
  repeat match goal with
    | |- context [process_i8 ?m] => unroll process_i8 process_i8_scan m
    | |- context [process_i16 ?m] => unroll process_i16 process_i16_scan m
    | |- context [process_i32 ?m] => unroll process_i32 process_i32_scan m
    | |- context [process_i64 ?m] => unroll process_i64 process_i64_scan m
    | |- context [process_f32 ?m] => unroll process_f32 process_f32_scan m
    | |- context [process_f64 ?m] => unroll process_f64 process_f64_scan m
    end;
  cbn [with_i8 with_i16 with_i32 with_i64 with_f32 with_f64
       buffer_i8 buffer_i16 buffer_i32 buffer_i64 buffer_f32 buffer_f64].

(** X10.  Any two routines for different arrays can be called in either order:
    the memory they leave is the same. *)
Theorem process_commute (m : memory) :
  process_i8 (process_i16 m) = process_i16 (process_i8 m) /\
  process_i8 (process_i32 m) = process_i32 (process_i8 m) /\
  process_i8 (process_i64 m) = process_i64 (process_i8 m) /\
  process_i8 (process_f32 m) = process_f32 (process_i8 m) /\
  process_i8 (process_f64 m) = process_f64 (process_i8 m) /\
  process_i16 (process_i32 m) = process_i32 (process_i16 m) /\
  process_i16 (process_i64 m) = process_i64 (process_i16 m) /\
  process_i16 (process_f32 m) = process_f32 (process_i16 m) /\
  process_i16 (process_f64 m) = process_f64 (process_i16 m) /\
  process_i32 (process_i64 m) = process_i64 (process_i32 m) /\
  process_i32 (process_f32 m) = process_f32 (process_i32 m) /\
  process_i32 (process_f64 m) = process_f64 (process_i32 m) /\
  process_i64 (process_f32 m) = process_f32 (process_i64 m) /\
  process_i64 (process_f64 m) = process_f64 (process_i64 m) /\
  process_f32 (process_f64 m) = process_f64 (process_f32 m).
Proof.
  unroll_scans.
  unfold with_i8, with_i16, with_i32, with_i64, with_f32, with_f64.
  cbn [buffer_i8 buffer_i16 buffer_i32 buffer_i64 buffer_f32 buffer_f64].
  repeat match goal with |- _ /\ _ => split end; reflexivity.
Qed.

(** The arrays keep their declared length through every routine. *)
Lemma routines_well_formed (m : memory) :
  well_formed m ->
  well_formed (process_i8 m) /\ well_formed (process_i16 m) /\
  well_formed (process_i32 m) /\ well_formed (process_i64 m) /\
  well_formed (process_f32 m) /\ well_formed (process_f64 m).
Proof.
  intros [H8 H16 H32 H64 Hf32 Hf64].
  repeat match goal with |- _ /\ _ => split end;
    split; unroll_scans; rewrite ?scan_length; assumption.
Qed.

Section InBounds.
Import Checked.

Lemma ITEMS_nat : Z.of_nat (Z.to_nat ITEMS) = ITEMS.
Proof. apply Z2Nat.id, ITEMS_nonneg. Qed.

(** One routine with checked accesses, on an array of sufficient length and
    on one that is too short. *)
Lemma checked_routine {A : Type} (get : memory -> list A)
    (set : (list A -> list A) -> memory -> memory) (f : Z -> A -> A)
    (m : memory) :
  (forall g m', get (set g m') = g (get m')) ->
  ((Z.to_nat ITEMS <= length (get m))%nat ->
   for_lt_checked ITEMS (update get set f) m =
   Some (for_lt ITEMS (fun i => set (alter (f i) (Z.to_nat i))) m)) /\
  ((length (get m) < Z.to_nat ITEMS)%nat ->
   for_lt_checked ITEMS (update get set f) m = None).
Proof.
  intros Hlens. split; intros Hlen.
  - pose proof (checked_within get set f Hlens (Z.to_nat ITEMS) m Hlen) as E.
    rewrite ITEMS_nat in E. exact E.
  - pose proof (checked_beyond get set f Hlens (Z.to_nat ITEMS) m Hlen) as E.
    rewrite ITEMS_nat in E. exact E.
Qed.

Lemma and_then_some (m : memory) (next : memory -> option memory) :
  and_then (Some m) next = next m.
Proof. reflexivity. Qed.

(** X11.  Run on arrays of the declared length, the routines, with every
    array access checked, never leave an array: each one, and
    [process_all], completes and yields what the unchecked routine yields,
    arrays of the declared length again.  The check is a real one: a
    routine run on an array shorter than [ITEMS] does step outside it. *)
Theorem process_in_bounds (m : memory) :
  well_formed m ->
  (process_i8_checked m = Some (process_i8 m) /\
   process_i16_checked m = Some (process_i16 m) /\
   process_i32_checked m = Some (process_i32 m) /\
   process_i64_checked m = Some (process_i64 m) /\
   process_f32_checked m = Some (process_f32 m) /\
   process_f64_checked m = Some (process_f64 m) /\
   process_all_checked m = Some (process_all m) /\
   well_formed (process_all m)) /\
  (forall m' : memory,
     ((length (buffer_i8 m') < Z.to_nat ITEMS)%nat ->
      process_i8_checked m' = None) /\
     ((length (buffer_i16 m') < Z.to_nat ITEMS)%nat ->
      process_i16_checked m' = None) /\
     ((length (buffer_i32 m') < Z.to_nat ITEMS)%nat ->
      process_i32_checked m' = None) /\
     ((length (buffer_i64 m') < Z.to_nat ITEMS)%nat ->
      process_i64_checked m' = None) /\
     ((length (buffer_f32 m') < Z.to_nat ITEMS)%nat ->
      process_f32_checked m' = None) /\
     ((length (buffer_f64 m') < Z.to_nat ITEMS)%nat ->
      process_f64_checked m' = None)).
Proof.
  assert (Hok : forall m0, well_formed m0 ->
      process_i8_checked m0 = Some (process_i8 m0) /\
      process_i16_checked m0 = Some (process_i16 m0) /\
      process_i32_checked m0 = Some (process_i32 m0) /\
      process_i64_checked m0 = Some (process_i64 m0) /\
      process_f32_checked m0 = Some (process_f32 m0) /\
      process_f64_checked m0 = Some (process_f64 m0)).
  { intros m0 [H8 H16 H32 H64 Hf32 Hf64].
    split; [|split; [|split; [|split; [|split]]]].
    - refine (proj1 (checked_routine buffer_i8 with_i8 add_i8 m0 _) _);
        [reflexivity | lia].
    - refine (proj1 (checked_routine buffer_i16 with_i16 add_i16 m0 _) _);
        [reflexivity | lia].
    - refine (proj1 (checked_routine buffer_i32 with_i32 add_i32 m0 _) _);
        [reflexivity | lia].
    - refine (proj1 (checked_routine buffer_i64 with_i64 add_i64 m0 _) _);
        [reflexivity | lia].
    - refine (proj1 (checked_routine buffer_f32 with_f32 add_f32 m0 _) _);
        [reflexivity | lia].
    - refine (proj1 (checked_routine buffer_f64 with_f64 add_f64 m0 _) _);
        [reflexivity | lia]. }
  intros Hwf. split.
  - destruct (Hok m Hwf) as (E8 & E16 & E32 & E64 & Ef32 & Ef64).
    pose proof (proj1 (routines_well_formed m Hwf)) as W1.
    pose proof (proj1 (proj2 (routines_well_formed _ W1))) as W2.
    pose proof (proj1 (proj2 (proj2 (routines_well_formed _ W2)))) as W3.
    pose proof (proj1 (proj2 (proj2 (proj2 (routines_well_formed _ W3))))) as W4.
    pose proof (proj1 (proj2 (proj2 (proj2 (proj2
                  (routines_well_formed _ W4)))))) as W5.
    pose proof (proj2 (proj2 (proj2 (proj2 (proj2
                  (routines_well_formed _ W5)))))) as W6.
    split; [exact E8|]. split; [exact E16|]. split; [exact E32|].
    split; [exact E64|]. split; [exact Ef32|]. split; [exact Ef64|].
    split; [|exact W6].
    unfold process_all_checked, process_all. cbv zeta.
    rewrite E8, and_then_some.
    rewrite (proj1 (proj2 (Hok _ W1))), and_then_some.
    rewrite (proj1 (proj2 (proj2 (Hok _ W2)))), and_then_some.
    rewrite (proj1 (proj2 (proj2 (proj2 (Hok _ W3))))), and_then_some.
    rewrite (proj1 (proj2 (proj2 (proj2 (proj2 (Hok _ W4)))))), and_then_some.
    exact (proj2 (proj2 (proj2 (proj2 (proj2 (Hok _ W5)))))).
  - intros m'. split; [|split; [|split; [|split; [|split]]]]; intros Hshort.
    + refine (proj2 (checked_routine buffer_i8 with_i8 add_i8 m' _) Hshort).
      reflexivity.
    + refine (proj2 (checked_routine buffer_i16 with_i16 add_i16 m' _) Hshort).
      reflexivity.
    + refine (proj2 (checked_routine buffer_i32 with_i32 add_i32 m' _) Hshort).
      reflexivity.
    + refine (proj2 (checked_routine buffer_i64 with_i64 add_i64 m' _) Hshort).
      reflexivity.
    + refine (proj2 (checked_routine buffer_f32 with_f32 add_f32 m' _) Hshort).
      reflexivity.
    + refine (proj2 (checked_routine buffer_f64 with_f64 add_f64 m' _) Hshort).
      reflexivity.
Qed.

Lemma process_in_bounds_witness :
  well_formed zeroed /\
  process_all_checked zeroed = Some (process_all zeroed) /\
  well_formed (process_all zeroed).
Proof.
  pose proof zeroed_well_formed as Hz.
  pose proof (proj1 (process_in_bounds zeroed Hz))
    as (_ & _ & _ & _ & _ & _ & Hall & Hwf).
  split; [exact Hz|]. split; [exact Hall | exact Hwf].
Defined.

End InBounds.

(** Within [process_all] an array only meets its own routine, and a
    routine only reads its own array. *)
Ltac own_array :=
  intros; unfold process_all; cbv zeta; unroll_scans;
  try match goal with H : _ = _ |- _ => rewrite H end; reflexivity.

Lemma all_i8 (m m' : memory) :
  buffer_i8 m = buffer_i8 m' ->
  buffer_i8 (process_all m) = buffer_i8 (process_i8 m').
Proof. own_array. Qed.

Lemma all_i16 (m m' : memory) :
  buffer_i16 m = buffer_i16 m' ->
  buffer_i16 (process_all m) = buffer_i16 (process_i16 m').
Proof. own_array. Qed.

Lemma all_i32 (m m' : memory) :
  buffer_i32 m = buffer_i32 m' ->
  buffer_i32 (process_all m) = buffer_i32 (process_i32 m').
Proof. own_array. Qed.

Lemma all_i64 (m m' : memory) :
  buffer_i64 m = buffer_i64 m' ->
  buffer_i64 (process_all m) = buffer_i64 (process_i64 m').
Proof. own_array. Qed.

Lemma all_f32 (m m' : memory) :
  buffer_f32 m = buffer_f32 m' ->
  buffer_f32 (process_all m) = buffer_f32 (process_f32 m').
Proof. own_array. Qed.

Lemma all_f64 (m m' : memory) :
  buffer_f64 m = buffer_f64 m' ->
  buffer_f64 (process_all m) = buffer_f64 (process_f64 m').
Proof. own_array. Qed.

Ltac iterate_own step :=
  let n := fresh "n" in
  let IH := fresh "IH" in
  intros n; induction n as [|n IH]; intros;
  [ rewrite (iter_zero process_all);
    match goal with
    | |- _ = ?p (Nat.iter 0 ?f ?m) => rewrite (iter_zero f m)
    end;
    reflexivity
  | rewrite (iter_succ process_all);
    match goal with
    | |- _ = ?p (Nat.iter (S n) ?f ?m) => rewrite (iter_succ f n m)
    end;
    apply step; apply IH ].

Lemma iter_all_i8 :
  forall n m, buffer_i8 (Nat.iter n process_all m)
              = buffer_i8 (Nat.iter n process_i8 m).
Proof. iterate_own all_i8. Qed.

Lemma iter_all_i16 :
  forall n m, buffer_i16 (Nat.iter n process_all m)
              = buffer_i16 (Nat.iter n process_i16 m).
Proof. iterate_own all_i16. Qed.

Lemma iter_all_i32 :
  forall n m, buffer_i32 (Nat.iter n process_all m)
              = buffer_i32 (Nat.iter n process_i32 m).
Proof. iterate_own all_i32. Qed.

Lemma iter_all_i64 :
  forall n m, buffer_i64 (Nat.iter n process_all m)
              = buffer_i64 (Nat.iter n process_i64 m).
Proof. iterate_own all_i64. Qed.

Lemma iter_all_f32 :
  forall n m, buffer_f32 (Nat.iter n process_all m)
              = buffer_f32 (Nat.iter n process_f32 m).
Proof. iterate_own all_f32. Qed.

Lemma iter_all_f64 :
  forall n m, buffer_f64 (Nat.iter n process_all m)
              = buffer_f64 (Nat.iter n process_f64 m).
Proof. iterate_own all_f64. Qed.

(** X9.  After [n] calls of [process_all] on zeroed memory every array holds at
    index [i] the product [n * i] in its own type: wrapped around for the
    integer arrays, and exact for the floating-point ones while the product
    is below [2^24], respectively [2^53]. *)
Theorem process_all_repeated (n : nat) (i : Z) :
  0 <= i < ITEMS ->
  buffer_i8 (Nat.iter n process_all zeroed) !! Z.to_nat i
  = Some (Int.wrap_signed 8 (Z.of_nat n * i)) /\
  buffer_i16 (Nat.iter n process_all zeroed) !! Z.to_nat i
  = Some (Int.wrap_signed 16 (Z.of_nat n * i)) /\
  buffer_i32 (Nat.iter n process_all zeroed) !! Z.to_nat i
  = Some (Int.wrap_signed 32 (Z.of_nat n * i)) /\
  buffer_i64 (Nat.iter n process_all zeroed) !! Z.to_nat i
  = Some (Int.wrap_signed 64 (Z.of_nat n * i)) /\
  (Z.of_nat n * i < 2 ^ 24 ->
   buffer_f32 (Nat.iter n process_all zeroed) !! Z.to_nat i
   = Some (F.of_int (Z.of_nat n * i))) /\
  (Z.of_nat n * i < 2 ^ 53 ->
   buffer_f64 (Nat.iter n process_all zeroed) !! Z.to_nat i
   = Some (D.of_int (Z.of_nat n * i))).
Proof.
  intros Hi.
  destruct (repeated_ints n i Hi) as (H8 & H16 & H32 & H64).
  rewrite (iter_all_i8 n zeroed), (iter_all_i16 n zeroed),
    (iter_all_i32 n zeroed), (iter_all_i64 n zeroed),
    (iter_all_f32 n zeroed), (iter_all_f64 n zeroed).
  split; [exact H8|]. split; [exact H16|]. split; [exact H32|].
  split; [exact H64|].
  split; intros Hb; [exact (repeated_f32 n i Hi Hb) | exact (repeated_f64 n i Hi Hb)].
Qed.

Lemma process_all_repeated_witness :
  0 <= 1000 < ITEMS /\
  buffer_i16 (Nat.iter 40 process_all zeroed) !! Z.to_nat 1000
  = Some (Int.wrap_signed 16 (Z.of_nat 40 * 1000)).
Proof.
  assert (Hi : 0 <= 1000 < ITEMS) by (rewrite ITEMS_value; lia).
  split; [exact Hi|].
  exact (proj1 (proj2 (process_all_repeated 40 1000 Hi))).
Defined.

End MemoryMore.
